(** * ClaimsRAG: retrieval, PII masking and the conversational agent

    A shallow embedding of [aadhaar_mask.py], [history_db.py], [app.py] and
    [agent.py], followed by the properties of the specification that were
    checked against it.

    Conventions.
    - A Python [str] is a list of Unicode code points ([pystr]).
    - Python floats are idealised as rationals ([Q]); a float literal such as
      [0.3] is the rational [3/10].
    - The collaborators the code calls into but does not define (the
      sentence encoder, the FAISS index, the text splitter, the completion
      service, [json.loads], the Unicode tables behind [re] and [str]) are
      fields of a record or of a class: every statement is about the code
      for an arbitrary behaviour of these collaborators, and the concrete
      instances below are only used to run the code on examples.
    - Wall-clock readings ([latency_ms], row timestamps, row ids) are not
      part of the model. *)

From Stdlib Require Import Ascii String.
From Stdlib Require Import List Permutation ZArith NArith QArith Qround Lia Lqa Bool.
Import ListNotations.
Local Open Scope nat_scope.
Local Open Scope list_scope.

(* ===================================================================== *)
(** * Python strings *)
(* ===================================================================== *)

(** A code point. *)
Definition pychar := N.

(** A Python [str]. *)
Definition pystr := list pychar.

(** An ASCII literal as a Python string. *)
Definition lit (s : string) : pystr := map N_of_ascii (list_ascii_of_string s).

Definition pychar_eqb (a b : pychar) : bool := N.eqb a b.

Fixpoint pystr_eqb (a b : pystr) : bool :=
  match a, b with
  | [], [] => true
  | x :: a', y :: b' => pychar_eqb x y && pystr_eqb a' b'
  | _, _ => false
  end.

(** [bool(s)] for a string: non-empty. *)
Definition truthy (s : pystr) : bool :=
  match s with [] => false | _ :: _ => true end.

(** The last element of a list, if any. *)
Fixpoint last_error {A} (l : list A) : option A :=
  match l with
  | [] => None
  | [x] => Some x
  | _ :: l' => last_error l'
  end.

(** [sub in s] on strings, as a proposition: [sub] is a contiguous part. *)
Definition occurs_in (sub s : pystr) : Prop :=
  exists before after, s = before ++ sub ++ after.

(** [s.find(c)]: index of the first occurrence of [c], or [-1]. *)
Fixpoint find (c : pychar) (s : pystr) : Z :=
  match s with
  | [] => -1
  | x :: s' =>
      if pychar_eqb x c then 0
      else let r := find c s' in if (r =? -1)%Z then -1 else (r + 1)%Z
  end.

(** [s.rfind(c)]: index of the last occurrence of [c], or [-1]. *)
Fixpoint rfind (c : pychar) (s : pystr) : Z :=
  match s with
  | [] => -1
  | x :: s' =>
      let r := rfind c s' in
      if (r =? -1)%Z then (if pychar_eqb x c then 0 else -1) else (r + 1)%Z
  end.

(** [s[a:b]] for [0 <= a] and [0 <= b]. *)
Definition slice (s : pystr) (a b : Z) : pystr :=
  firstn (Z.to_nat (b - a)) (skipn (Z.to_nat a) s).

(** [l[i]] with Python's indexing: a negative [i] counts from the end, and
    an index outside [-len .. len-1] raises [IndexError] ([None]). *)
Definition py_index {A} (l : list A) (i : Z) : option A :=
  let n := Z.of_nat (length l) in
  if (0 <=? i)%Z then nth_error l (Z.to_nat i)
  else if (0 <=? n + i)%Z then nth_error l (Z.to_nat (n + i))
  else None.

(** [sep.join(parts)]. *)
Fixpoint join (sep : pystr) (parts : list pystr) : pystr :=
  match parts with
  | [] => []
  | [p] => p
  | p :: rest => p ++ sep ++ join sep rest
  end.

(** The tables of the Python runtime that the code consults through [re]
    and [str]: which code points are decimal digits ([\d]), word characters
    ([\w], hence [\b]) and whitespace ([str.strip], [str.split]), and the
    case mapping behind [str.capitalize].  The laws are the facts about
    these tables that the proofs use; they hold of Unicode. *)
Class Unicode := {
  is_digit : pychar -> bool;
  is_word : pychar -> bool;
  is_space : pychar -> bool;
  capitalize : pystr -> pystr;
  digit_is_word : forall c, is_digit c = true -> is_word c = true;
  letter_X_word : is_word 88%N = true;
  letter_X_not_digit : is_digit 88%N = false;
  hyphen_not_word : is_word 45%N = false;
  lbrace_not_space : is_space 123%N = false;
  rbrace_not_space : is_space 125%N = false
}.

Section Strings.
Context {U : Unicode}.

(** [s.lstrip()], [s.rstrip()], [s.strip()]. *)
Fixpoint lstrip (s : pystr) : pystr :=
  match s with
  | [] => []
  | c :: s' => if is_space c then lstrip s' else s
  end.

Definition rstrip (s : pystr) : pystr := rev (lstrip (rev s)).

Definition strip (s : pystr) : pystr := rstrip (lstrip s).

(** [s.split()]: the maximal runs of non-whitespace characters.  [cur] is
    the run being read, reversed. *)
Fixpoint split_go (cur : pystr) (s : pystr) : list pystr :=
  match s with
  | [] => match cur with [] => [] | _ => [rev cur] end
  | c :: s' =>
      if is_space c
      then match cur with [] => split_go [] s' | _ => rev cur :: split_go [] s' end
      else split_go (c :: cur) s'
  end.

Definition split (s : pystr) : list pystr := split_go [] s.

(** A word as [str.split] yields them: not empty and free of whitespace. *)
Definition is_split_word (w : pystr) : Prop :=
  w <> [] /\ Forall (fun c => is_space c = false) w.

End Strings.

(* ===================================================================== *)
(** * aadhaar_mask.py *)
(* ===================================================================== *)

Section Mask.
Context {U : Unicode}.

(** Whether the character at a position, if there is one, is a word
    character; positions before the start and after the end are not. *)
Definition word_at (c : option pychar) : bool :=
  match c with Some x => is_word x | None => false end.

(** [\b] between the character [before] and the character [after]. *)
Definition boundary (before after : option pychar) : bool :=
  xorb (word_at before) (word_at after).

(** Whether [\b\d{12}\b] matches at the start of [s], where [prev] is the
    character just before [s] in the subject string. *)
Definition match_at (prev : option pychar) (s : pystr) : bool :=
  let run := firstn 12 s in
  boundary prev (hd_error s)
  && (length run =? 12)%nat
  && forallb is_digit run
  && boundary (last_error run) (hd_error (skipn 12 s)).

(** The replacement [f"XXXX-XXXX-{m.group()[8:]}"] for a match [m]. *)
Definition replacement (m : pystr) : pystr := lit "XXXX-XXXX-" ++ skipn 8 m.

(** [re.sub] for this pattern: scan left to right; at a match emit the
    replacement and resume after it, otherwise copy one character.  The
    pattern never matches the empty string.  [fuel] bounds the number of
    steps; the length of the subject is enough ([sub_scan_fuel]). *)
Fixpoint sub_scan (fuel : nat) (prev : option pychar) (s : pystr) : pystr :=
  match fuel with
  | O => s
  | S fuel' =>
      match s with
      | [] => []
      | c :: rest =>
          if match_at prev s
          then replacement (firstn 12 s)
                 ++ sub_scan fuel' (last_error (firstn 12 s)) (skipn 12 s)
          else c :: sub_scan fuel' (Some c) rest
      end
  end.

Definition mask_aadhaar (text : pystr) : pystr :=
  sub_scan (length text) None text.

(** The scan from a position inside the subject, with the fuel
    [mask_aadhaar] gives it. *)
Definition scan (prev : option pychar) (s : pystr) : pystr :=
  sub_scan (length s) prev s.

(** No position of [s] matches the pattern ([prev] precedes [s]). *)
Fixpoint no_match (prev : option pychar) (s : pystr) : bool :=
  match s with
  | [] => true
  | c :: rest => negb (match_at prev s) && no_match (Some c) rest
  end.

(** A 12-digit run bounded by word boundaries, in the words of the
    specification: [run] sits between [before] and [after]. *)
Definition bounded_run (before run after : pystr) : Prop :=
  length run = 12%nat
  /\ Forall (fun c => is_digit c = true) run
  /\ boundary (last_error before) (hd_error run) = true
  /\ boundary (last_error run) (hd_error after) = true.

End Mask.

(* ===================================================================== *)
(** * history_db.py *)
(* ===================================================================== *)

(** A row of [chat_history].  The table is a list of rows in insertion
    order, and the insertion order is taken to be the order of the [ts]
    column: the clock that [add_turn] reads is assumed to advance from one
    call to the next.  What is stated below about the order in which
    [get_recent] returns rows holds under that assumption; what is stated
    about which rows it returns does not need it. *)
Record Turn := {
  turn_session : pystr;
  turn_role : pystr;
  turn_text : pystr
}.

Definition History := list Turn.

Definition add_turn (session_id role text : pystr) (db : History) : History :=
  db ++ [{| turn_session := session_id; turn_role := role; turn_text := text |}].

(** [select role, text ... where session_id=? order by ts desc limit ?]:
    the rows of the session, newest first, at most [limit] of them. *)
Definition get_recent (session_id : pystr) (limit : nat) (db : History)
  : list (pystr * pystr) :=
  map (fun t => (turn_role t, turn_text t))
      (firstn limit
         (rev (filter (fun t => pystr_eqb (turn_session t) session_id) db))).

Definition clear (session_id : pystr) (db : History) : History :=
  filter (fun t => negb (pystr_eqb (turn_session t) session_id)) db.

(* ===================================================================== *)
(** * app.py *)
(* ===================================================================== *)

(** An embedding vector. *)
Definition vec := list Q.

(** [np.dot] of two vectors. *)
Fixpoint dot (u v : vec) : Q :=
  match u, v with
  | x :: u', y :: v' => (x * y + dot u' v')%Q
  | _, _ => 0%Q
  end.

Fixpoint qsum (l : list Q) : Q :=
  match l with
  | [] => 0%Q
  | x :: l' => (x + qsum l')%Q
  end.

(** [np.mean] of a non-empty list. *)
Definition mean (l : list Q) : Q :=
  (qsum l / inject_Z (Z.of_nat (length l)))%Q.

(** Rounding to the nearest integer, ties to even. *)
Definition round_half_even (x : Q) : Z :=
  let f := Qfloor x in
  match (x - inject_Z f ?= 1 # 2)%Q with
  | Lt => f
  | Gt => (f + 1)%Z
  | Eq => if Z.even f then f else (f + 1)%Z
  end.

(** [round(x, 4)]. *)
Definition round4 (x : Q) : Q := Qmake (round_half_even (x * 10000)%Q) 10000.

(** What [retrieve] and [build_index] call into: the sentence encoder
    ([model.encode]), division by the Euclidean norm
    ([v / np.linalg.norm(v)]), the search of the FAISS index over the stored
    embeddings ([index.search], the row [indices[0]] of labels) and the text
    splitter ([text_splitter.split_text]). *)
Record Engine := {
  encode : pystr -> vec;
  normalize : vec -> vec;
  index_search : list vec -> vec -> Z -> list Z;
  split_text : pystr -> list pystr
}.

(** The module globals [index] and [metadata_store]. *)
Record AppState := {
  index : option (list vec);
  metadata_store : list (pystr * pystr)
}.

Definition initial_state : AppState :=
  {| index := None; metadata_store := [] |}.

(** One entry of the list [retrieve] returns. *)
Record Chunk := {
  doc : pystr;
  citation_preview : pystr;
  full_snippet : pystr;
  similarity_score : Q
}.

Inductive RetrieveError :=
| Index_not_initialized   (* RuntimeError("Index not initialized") *)
| Index_error.            (* IndexError from metadata_store[idx] *)

(** [QueryRequest(query=..., k=...)]: [k] must satisfy [ge=1, le=6]. *)
Definition QueryRequest (query : pystr) (k : Z) : option (pystr * Z) :=
  if (1 <=? k)%Z && (k <=? 6)%Z then Some (query, k) else None.


Section App.
Context {U : Unicode}.
Variable eng : Engine.

Definition chunk_text (text : pystr) : list pystr := split_text eng text.

(** [build_index], given the files of [DATA_DIR] as (name, content). *)
Definition build_index (files : list (pystr * pystr)) (st : AppState) : AppState :=
  let docs :=
    flat_map (fun f => map (fun chunk => (fst f, chunk)) (chunk_text (snd f)))
             files in
  match docs with
  | [] => st
  | _ :: _ =>
      let texts := map snd docs in
      let embeddings := map (encode eng) texts in
      {| index := Some embeddings; metadata_store := docs |}
  end.

(** The cosine similarity [retrieve] reports for a snippet. *)
Definition cosine_sim (query snippet : pystr) : Q :=
  let query_norm := normalize eng (encode eng query) in
  let chunk_norm := normalize eng (encode eng snippet) in
  dot query_norm chunk_norm.

(** The loop of [retrieve] over the labels [indices[0]]: the lists
    [results] and [similarities], or [None] when [metadata_store[idx]]
    raises. *)
Fixpoint retrieve_loop (store : list (pystr * pystr)) (query : pystr)
    (indices : list Z) : option (list Chunk * list Q) :=
  match indices with
  | [] => Some ([], [])
  | idx :: rest =>
      match py_index store idx with
      | None => None
      | Some (doc_name, snippet) =>
          let first_8_words := join (lit " ") (firstn 8 (split snippet)) in
          let sim := cosine_sim query snippet in
          match retrieve_loop store query rest with
          | None => None
          | Some (results, similarities) =>
              Some ({| doc := doc_name;
                       citation_preview := first_8_words;
                       full_snippet := snippet;
                       similarity_score := round4 sim |} :: results,
                    sim :: similarities)
          end
      end
  end.

Definition retrieve (st : AppState) (query : pystr) (k : Z)
  : RetrieveError + (list Chunk * Q) :=
  match index st with
  | None => inl Index_not_initialized
  | Some idx =>
      let indices := index_search eng idx (encode eng query) k in
      match retrieve_loop (metadata_store st) query indices with
      | None => inl Index_error
      | Some (results, similarities) =>
          let avg_grounding_score :=
            match similarities with
            | [] => 0%Q
            | _ :: _ => mean similarities
            end in
          inr (results, avg_grounding_score)
      end
  end.

Definition compose_answer (chunks : list Chunk) : pystr :=
  join (lit " ") (map full_snippet chunks).

(** The cosine similarity of the chunk a label of the index stands for. *)
Definition hit_similarity (store : list (pystr * pystr)) (query : pystr)
    (idx : Z) : Q :=
  match py_index store idx with
  | Some (_, snippet) => cosine_sim query snippet
  | None => 0%Q
  end.

End App.

(* ===================================================================== *)
(** * agent.py *)
(* ===================================================================== *)

(** The object [json.loads] yields for a reply in the response format of
    the clarification prompt; an absent key is [None].  A field, where
    present, is taken to hold a value of the type the prompt asks for: an
    object with a JSON [null] or a value of another type in one of the four
    fields is outside the model. *)
Record ClarificationData := {
  cd_needs_clarification : option bool;
  cd_clarification_question : option pystr;
  cd_confidence : option Q;
  cd_reason : option pystr
}.

(** The completion service behind [kernel.invoke] and the JSON decoder.
    [None] stands for a raised exception: a failed call for the two
    prompts, and for [json_loads] a text that does not decode, or that
    decodes to a value that is not an object (on which [.get] raises). *)
Record Collaborator := {
  (* arguments: query, conversation_history, grounding *)
  invoke_clarification : pystr -> pystr -> pystr -> option pystr;
  invoke_response : pystr -> pystr -> pystr -> option pystr;
  json_loads : pystr -> option ClarificationData
}.

(** The dictionary [check_needs_clarification_with_llm] returns. *)
Record Decision := {
  needs_clarification : bool;
  clarification_question : pystr;
  confidence : Q;
  reason : pystr
}.

Record ChatRequest := {
  message : pystr;
  session_id : pystr;
  req_k : Z
}.

(** The [retrieval] dictionary; [grounding_score] is absent on the
    clarification branch. *)
Record RetrievalStats := {
  stats_k : Z;
  stats_grounding_score : option Q
}.

Record AskResponse := {
  ask_answer : pystr;
  ask_citations : list (pystr * pystr);
  ask_retrieval : RetrievalStats
}.

Record ChatResponse := {
  reply : pystr;
  citations : list (pystr * pystr);
  retrieval : RetrievalStats;
  resp_session_id : pystr;
  used_clarification : bool;
  confidence_score : option Q
}.

(** [HTTPException(status_code=...)]. *)
Inductive HTTPException := HTTP (status_code : Z).

Definition fallback_question : pystr :=
  lit "I don't have enough information to answer your question. Could you provide more details or specify which policy (101 or 201) you're referring to?".

Definition apology : pystr :=
  lit "I apologize, but I'm having trouble generating a response at the moment.".

Definition start_of_conversation : pystr :=
  lit "This is the start of the conversation." ++ [10%N].

Definition default {A} (d : A) (o : option A) : A :=
  match o with Some x => x | None => d end.

(** [l[-n:]]. *)
Definition last_n {A} (n : nat) (l : list A) : list A :=
  match n with
  | O => l
  | _ => skipn (length l - n) l
  end.

Section Agent.
Context {U : Unicode}.
Variable eng : Engine.
Variable llm : Collaborator.

(** [call_ask]: every exception of the body becomes a 502. *)
Definition call_ask (st : AppState) (query : pystr) (k : Z)
  : HTTPException + AskResponse :=
  match QueryRequest query k with
  | None => inl (HTTP 502)
  | Some (req_query, k') =>
      match retrieve eng st req_query k' with
      | inl _ => inl (HTTP 502)
      | inr (chunks, grounding_score) =>
          inr {| ask_answer := join (lit " ") (map full_snippet chunks);
                 ask_citations :=
                   map (fun c => (doc c, citation_preview c)) chunks;
                 ask_retrieval :=
                   {| stats_k := k';
                      stats_grounding_score := Some (round4 grounding_score) |} |}
      end
  end.

(** Lines 139-145: the text handed to [json.loads]. *)
Definition extract_json_text (result : pystr) : pystr :=
  let response_text := strip result in
  let json_start := find 123%N response_text in
  let json_end := (rfind 125%N response_text + 1)%Z in
  if negb (json_start =? -1)%Z && (json_start <? json_end)%Z
  then slice response_text json_start json_end
  else response_text.

(** The [except] branch of [check_needs_clarification_with_llm]. *)
Definition clarification_fallback (grounding : pystr) : Decision :=
  if negb (truthy grounding) || (length grounding <? 50)%nat
  then {| needs_clarification := true;
          clarification_question := fallback_question;
          confidence := 3 # 10;
          reason := lit "Insufficient grounding information" |}
  else {| needs_clarification := false;
          clarification_question := [];
          confidence := 7 # 10;
          reason := lit "Fallback - sufficient information available" |}.

Definition check_needs_clarification_with_llm
    (query grounding conversation_history : pystr) : Decision :=
  match invoke_clarification llm query conversation_history
          (if truthy grounding then grounding
           else lit "No relevant information found.") with
  | None => clarification_fallback grounding
  | Some result =>
      match json_loads llm (extract_json_text result) with
      | None => clarification_fallback grounding
      | Some clarification_data =>
          {| needs_clarification :=
               default false (cd_needs_clarification clarification_data);
             clarification_question :=
               default [] (cd_clarification_question clarification_data);
             confidence := default (1 # 2) (cd_confidence clarification_data);
             reason := default [] (cd_reason clarification_data) |}
      end
  end.

Definition generate_response_with_llm
    (query grounding conversation_history : pystr) : pystr :=
  match invoke_response llm query conversation_history grounding with
  | Some result => strip result
  | None => if truthy grounding then firstn 500 grounding else apology
  end.

(** One line of the conversation context. *)
Definition context_line (turn : pystr * pystr) : pystr :=
  capitalize (fst turn) ++ lit ": " ++ snd turn ++ [10%N].

Definition build_conversation_context (db : History) (session : pystr)
    (max_turns : nat) : pystr :=
  let history := get_recent session max_turns db in
  match history with
  | [] => start_of_conversation
  | _ :: _ =>
      lit "Previous conversation:" ++ [10%N]
      ++ concat (map context_line (last_n max_turns history))
      ++ [10%N]
  end.

(** The [/agent/chat] endpoint: the response or the HTTP error, and the
    history table afterwards. *)
Definition chat (st : AppState) (req : ChatRequest) (db : History)
  : (HTTPException + ChatResponse) * History :=
  let session := session_id req in
  let user_msg := mask_aadhaar (strip (message req)) in
  if negb (truthy user_msg) then (inl (HTTP 400), db)
  else
    let db1 := add_turn session (lit "user") user_msg db in
    let conversation_context := build_conversation_context db1 session 5 in
    match call_ask st user_msg (req_k req) with
    | inl e => (inl e, db1)
    | inr ask_resp =>
        let answer := ask_answer ask_resp in
        let clarification_check :=
          check_needs_clarification_with_llm user_msg answer conversation_context in
        let '(reply, retrieval, used_clar) :=
          if needs_clarification clarification_check
          then (clarification_question clarification_check,
                {| stats_k := req_k req; stats_grounding_score := None |},
                true)
          else (mask_aadhaar
                  (generate_response_with_llm user_msg answer conversation_context),
                ask_retrieval ask_resp,
                false) in
        let db2 := add_turn session (lit "assistant") reply db1 in
        (inr {| reply := reply;
                citations := ask_citations ask_resp;
                retrieval := retrieval;
                resp_session_id := session;
                used_clarification := used_clar;
                confidence_score := Some (confidence clarification_check) |},
         db2)
    end.

End Agent.

(* ===================================================================== *)
(** * The remaining endpoints of app.py and agent.py *)
(* ===================================================================== *)

(** One entry of [citations] in the reply of [/ask]. *)
Record Citation := {
  cit_doc : pystr;
  cit_snippet : pystr;
  cit_full_snippet : pystr
}.

Record AskReply := {
  reply_answer : pystr;
  reply_citations : list Citation;
  reply_retrieval : RetrievalStats
}.

(** The fields of [health_status] that do not read the clock or the
    configuration. *)
Record HealthStatus := {
  health_status_text : pystr;
  index_ready : bool;
  documents_indexed : nat
}.

Definition MAX_HISTORY_TO_SUMMARIZE : nat := 20.

Section Endpoints.
Context {U : Unicode}.
Variable eng : Engine.

(** [/ask], for a request body that passed [QueryRequest].  An exception
    of [retrieve] is not caught and ends in the framework's 500. *)
Definition ask (st : AppState) (req : pystr * Z) : HTTPException + AskReply :=
  if match index st with None => true | Some _ => false end
     || (length (metadata_store st) =? 0)
  then inl (HTTP 503)
  else
    match retrieve eng st (fst req) (snd req) with
    | inl _ => inl (HTTP 500)
    | inr (chunks, grounding_score) =>
        inr {| reply_answer := compose_answer chunks;
               reply_citations :=
                 map (fun c => {| cit_doc := doc c;
                                  cit_snippet := citation_preview c;
                                  cit_full_snippet := full_snippet c |}) chunks;
               reply_retrieval :=
                 {| stats_k := snd req;
                    stats_grounding_score := Some (round4 grounding_score) |} |}
    end.

(** [/healthz]: the status code and the status dictionary. *)
Definition health_check (st : AppState) : Z * HealthStatus :=
  let ready := match index st with None => false | Some _ => true end in
  let health_status :=
    {| health_status_text := if ready then lit "healthy" else lit "unhealthy";
       index_ready := ready;
       documents_indexed := length (metadata_store st) |} in
  if ready then (200%Z, health_status) else (503%Z, health_status).

(** [GET /agent/history/{session_id}]. *)
Definition get_history (session : pystr) (db : History) : list (pystr * pystr) :=
  get_recent session MAX_HISTORY_TO_SUMMARIZE db.

(** [DELETE /agent/history/{session_id}]: the table afterwards. *)
Definition clear_history (session : pystr) (db : History) : History :=
  clear session db.

(** The index and [metadata_store] go together: either nothing is indexed,
    or the index holds the embedding of every stored chunk, in the order of
    [metadata_store], so that label [i] of the index stands for
    [metadata_store[i]]. *)
Definition index_aligned (st : AppState) : Prop :=
  match index st with
  | None => metadata_store st = []
  | Some embeddings =>
      metadata_store st <> []
      /\ embeddings = map (fun d => encode eng (snd d)) (metadata_store st)
  end.

End Endpoints.

(* ===================================================================== *)
(** * eval.py *)
(* ===================================================================== *)

(** [s.startswith(sub)] and [sub in s]. *)
Fixpoint starts_with (sub s : pystr) : bool :=
  match sub, s with
  | [], _ => true
  | _ :: _, [] => false
  | x :: sub', y :: s' => pychar_eqb x y && starts_with sub' s'
  end.

Fixpoint contains (sub s : pystr) : bool :=
  match s with
  | [] => starts_with sub []
  | _ :: s' => starts_with sub s || contains sub s'
  end.

(** A line of the evaluation file. *)
Record EvalQuery := {
  eval_q : pystr;
  ans_contains : pystr
}.

(** What [evaluate] calls into: [str.lower], and the POST to the [/ask]
    URL, of which only the [full_snippet] of each citation of the reply is
    read ([None] where the key is missing).  Every citation is taken to
    carry the [doc] key, as the replies of [/ask] do, so that the report
    printed for a miss does not raise. *)
Record EvalEnv := {
  lower : pystr -> pystr;
  post_ask : pystr -> Z -> list (option pystr)
}.

Section Eval.
Context {U : Unicode}.
Variable env : EvalEnv.

(** The number of citations that contain the expected text. *)
Definition correct_citations (query : EvalQuery) : nat :=
  let citations := post_ask env (eval_q query) 3 in
  let expected := strip (lower env (ans_contains query)) in
  length (filter (fun c => contains expected (lower env (default [] c))) citations).

(** One round of the loop over the queries, on [(hits, precision_sum)]. *)
Definition evaluate_step (acc : nat * Q) (query : EvalQuery) : nat * Q :=
  let correct := correct_citations query in
  if (0 <? correct)
  then (S (fst acc), (snd acc + inject_Z (Z.of_nat correct) / 3)%Q)
  else acc.

(** [evaluate]: the [hit_rate] and [precision@3] of the summary line, or
    [None] for the [ZeroDivisionError] of an empty evaluation file. *)
Definition evaluate (queries : list EvalQuery) : option (Q * Q) :=
  let total := length queries in
  let '(hits, precision_sum) := fold_left evaluate_step queries (0, 0%Q) in
  if (total =? 0) then None
  else Some ((inject_Z (Z.of_nat hits) / inject_Z (Z.of_nat total))%Q,
             (precision_sum / inject_Z (Z.of_nat total))%Q).

End Eval.

(* ===================================================================== *)
(** * Concrete collaborators, for running the code *)
(* ===================================================================== *)

(** The tables restricted to ASCII: exact on strings of ASCII characters. *)
Definition ascii_is_digit (c : pychar) : bool := (48 <=? c)%N && (c <=? 57)%N.

Definition ascii_is_upper (c : pychar) : bool := (65 <=? c)%N && (c <=? 90)%N.

Definition ascii_is_lower (c : pychar) : bool := (97 <=? c)%N && (c <=? 122)%N.

Definition ascii_is_word (c : pychar) : bool :=
  ascii_is_digit c || ascii_is_upper c || ascii_is_lower c || (c =? 95)%N.

Definition ascii_is_space (c : pychar) : bool :=
  ((9 <=? c)%N && (c <=? 13)%N) || ((28 <=? c)%N && (c <=? 32)%N).

Definition ascii_upper (c : pychar) : pychar :=
  if ascii_is_lower c then (c - 32)%N else c.

Definition ascii_lower (c : pychar) : pychar :=
  if ascii_is_upper c then (c + 32)%N else c.

Definition ascii_capitalize (s : pystr) : pystr :=
  match s with
  | [] => []
  | c :: s' => ascii_upper c :: map ascii_lower s'
  end.

Definition ascii_digit_is_word (c : pychar) (H : ascii_is_digit c = true)
  : ascii_is_word c = true :=
  match eq_sym H in (_ = b)
        return (b || ascii_is_upper c || ascii_is_lower c || (c =? 95)%N = true)
  with eq_refl => eq_refl end.

#[export] Instance ascii_tables : Unicode := {|
  is_digit := ascii_is_digit;
  is_word := ascii_is_word;
  is_space := ascii_is_space;
  capitalize := ascii_capitalize;
  digit_is_word := ascii_digit_is_word;
  letter_X_word := eq_refl;
  letter_X_not_digit := eq_refl;
  hyphen_not_word := eq_refl;
  lbrace_not_space := eq_refl;
  rbrace_not_space := eq_refl
|}.

(** Squared Euclidean distance, the metric of [IndexHNSWFlat]. *)
Fixpoint l2sq (u v : vec) : Q :=
  match u, v with
  | x :: u', y :: v' => ((x - y) * (x - y) + l2sq u' v')%Q
  | _, _ => 0%Q
  end.

Fixpoint insert_hit (h : Q * Z) (l : list (Q * Z)) : list (Q * Z) :=
  match l with
  | [] => [h]
  | x :: l' => if Qle_bool (fst x) (fst h) then x :: insert_hit h l' else h :: l
  end.

Fixpoint ordinals (n : nat) (from : Z) : list Z :=
  match n with
  | O => []
  | S n' => from :: ordinals n' (from + 1)%Z
  end.

(** An exhaustive L2 search: the [k] stored vectors nearest to the query,
    closest first, ties in insertion order; labels [-1] fill the row when
    fewer than [k] vectors are stored, as FAISS does.  On the two-vector
    indexes used below the graph search of HNSW visits every vector and
    returns the same row. *)
Definition flat_search (stored : list vec) (q : vec) (k : Z) : list Z :=
  let hits := combine (map (l2sq q) stored) (ordinals (length stored) 0) in
  let ranked := fold_left (fun acc h => insert_hit h acc) hits [] in
  firstn (Z.to_nat k) (map snd ranked ++ repeat (-1)%Z (Z.to_nat k)).

(** The Euclidean norm of a vector whose squared norm is the square of a
    rational (integer square roots of numerator and denominator). *)
Definition rational_norm (v : vec) : Q :=
  let s := Qred (dot v v) in
  Qmake (Z.sqrt (Qnum s)) (Z.to_pos (Z.sqrt (Zpos (Qden s)))).

Definition rational_normalize (v : vec) : vec :=
  map (fun x => (x / rational_norm v)%Q) v.

(** An encoder that does not normalise its output: three texts with
    embeddings of different lengths. *)
Definition demo_encode (text : pystr) : vec :=
  if pystr_eqb text (lit "water damage") then [3; 4]%Q
  else if pystr_eqb text (lit "water") then [10; 0]%Q
  else [1; 0]%Q.

Definition demo_engine : Engine := {|
  encode := demo_encode;
  normalize := rational_normalize;
  index_search := flat_search;
  split_text := fun text => [text]
|}.

Definition demo_files : list (pystr * pystr) :=
  [(lit "a.txt", lit "water damage"); (lit "b.txt", lit "water")].

(** The application after start-up over [demo_files]: two chunks. *)
Definition demo_state : AppState :=
  build_index demo_engine demo_files initial_state.

(** The application after start-up over one file with one longer chunk. *)
Definition demo_policy_state : AppState :=
  build_index demo_engine
    [(lit "policy.txt",
      lit "Policy 101 covers water damage up to $50,000 per claim.")]
    initial_state.

Definition quoted (s : string) : pystr := [34%N] ++ lit s ++ [34%N].

(** A reply of the completion service in the requested format, asking the
    user to confirm a 12-digit number. *)
Definition demo_clarification_reply : pystr :=
  lit "{" ++ quoted "needs_clarification" ++ lit ": true, "
  ++ quoted "clarification_question" ++ lit ": "
  ++ quoted "Is 123412345678 the Aadhaar number on the policy?" ++ lit ", "
  ++ quoted "confidence" ++ lit ": 0.4}".

Definition demo_collaborator : Collaborator := {|
  invoke_clarification := fun _ _ _ => Some demo_clarification_reply;
  invoke_response := fun _ _ _ => None;
  json_loads := fun text =>
    if pystr_eqb text demo_clarification_reply
    then Some {| cd_needs_clarification := Some true;
                 cd_clarification_question :=
                   Some (lit "Is 123412345678 the Aadhaar number on the policy?");
                 cd_confidence := Some (4 # 10);
                 cd_reason := None |}
    else None
|}.

(** A completion service that is unreachable. *)
Definition offline : Collaborator := {|
  invoke_clarification := fun _ _ _ => None;
  invoke_response := fun _ _ _ => None;
  json_loads := fun _ => None
|}.

(* --------------------------------------------------------------------- *)
(** ** Conditions on the encoder and the index *)
(* --------------------------------------------------------------------- *)






(* --------------------------------------------------------------------- *)
(** ** More concrete collaborators *)
(* --------------------------------------------------------------------- *)















(** A reply in the requested format that lets the turn proceed. *)
Definition proceed_object : pystr :=
  lit "{" ++ quoted "needs_clarification" ++ lit ": false, "
  ++ quoted "clarification_question" ++ lit ": " ++ [34%N; 34%N] ++ lit ", "
  ++ quoted "confidence" ++ lit ": 0.9}".


(** A completion service that answers only where the conversation history
    is the start-of-conversation sentence. *)
Definition sentinel_service : Collaborator := {|
  invoke_clarification := fun _ conversation_history _ =>
    if pystr_eqb conversation_history start_of_conversation
    then Some proceed_object else None;
  invoke_response := fun _ conversation_history _ =>
    if pystr_eqb conversation_history start_of_conversation
    then Some (lit "Welcome.") else None;
  json_loads := json_loads offline
|}.

(* ===================================================================== *)
(** * Properties *)
(* ===================================================================== *)

Example mask_docstring :
  mask_aadhaar (lit "My Aadhaar number is 123412345678 and should be masked")
  = lit "My Aadhaar number is XXXX-XXXX-5678 and should be masked".
Proof. vm_compute. reflexivity. Qed.


(* --------------------------------------------------------------------- *)
(** ** The scan of [re.sub] *)
(* --------------------------------------------------------------------- *)

Section MaskFacts.
Context {U : Unicode}.

Lemma skipn_length_le {A} (n : nat) (l : list A) : length (skipn n l) <= length l.
Proof. rewrite length_skipn. lia. Qed.

Lemma sub_scan_fuel_irrelevant fuel1 : forall fuel2 prev s,
  length s <= fuel1 -> length s <= fuel2 ->
  sub_scan fuel1 prev s = sub_scan fuel2 prev s.
Proof.
  induction fuel1 as [|fuel1 IH]; intros fuel2 prev s H1 H2.
  - destruct s; [|simpl in H1; lia]. destruct fuel2; reflexivity.
  - destruct fuel2 as [|fuel2].
    + destruct s; [reflexivity|simpl in H2; lia].
    + destruct s as [|c rest]; [reflexivity|].
      cbn [sub_scan]. simpl in H1, H2.
      destruct (match_at prev (c :: rest)).
      * f_equal. apply IH.
        -- change (skipn 12 (c :: rest)) with (skipn 11 rest).
           pose proof (skipn_length_le 11 rest). lia.
        -- change (skipn 12 (c :: rest)) with (skipn 11 rest).
           pose proof (skipn_length_le 11 rest). lia.
      * f_equal. apply IH; lia.
Qed.

(** Any fuel that covers the subject gives the result of [mask_aadhaar]'s
    scan: the scan terminates within the fuel it is given. *)
Lemma sub_scan_fuel fuel prev s :
  length s <= fuel -> sub_scan fuel prev s = scan prev s.
Proof. intros H. apply sub_scan_fuel_irrelevant; [assumption|lia]. Qed.

Lemma scan_nil prev : scan prev [] = [].
Proof. reflexivity. Qed.

Lemma scan_cons prev c rest :
  scan prev (c :: rest)
  = if match_at prev (c :: rest)
    then replacement (firstn 12 (c :: rest))
           ++ scan (last_error (firstn 12 (c :: rest))) (skipn 12 (c :: rest))
    else c :: scan (Some c) rest.
Proof.
  unfold scan at 1. cbn [length sub_scan].
  destruct (match_at prev (c :: rest)).
  - f_equal. apply sub_scan_fuel.
    change (skipn 12 (c :: rest)) with (skipn 11 rest).
    pose proof (skipn_length_le 11 rest). lia.
  - f_equal.
Qed.

Lemma mask_aadhaar_scan text : mask_aadhaar text = scan None text.
Proof. reflexivity. Qed.

Lemma not_word_not_digit c : is_word c = false -> is_digit c = false.
Proof.
  intros H. destruct (is_digit c) eqn:E; [|reflexivity].
  apply digit_is_word in E. congruence.
Qed.

Lemma hyphen_not_digit : is_digit 45%N = false.
Proof. apply not_word_not_digit, hyphen_not_word. Qed.

Lemma match_at_nil prev : match_at prev [] = false.
Proof. unfold match_at. simpl. apply andb_false_r. Qed.

Lemma match_at_nondigit prev c s : is_digit c = false -> match_at prev (c :: s) = false.
Proof.
  intros H. unfold match_at. cbn [firstn forallb]. rewrite H.
  cbn [andb]. rewrite andb_false_r. reflexivity.
Qed.

Lemma match_at_after_word prev s : word_at prev = true -> match_at prev s = false.
Proof.
  intros Hp. destruct s as [|c s]; [apply match_at_nil|].
  destruct (is_digit c) eqn:Ed; [|apply match_at_nondigit; assumption].
  unfold match_at, boundary. cbn [hd_error word_at].
  rewrite Hp, (digit_is_word _ Ed). reflexivity.
Qed.

(** The pattern reads at most thirteen characters: what follows a
    non-digit is irrelevant. *)
Lemma match_at_app_nondigit prev a x r :
  is_digit x = false ->
  match_at prev (a ++ x :: r) = match_at prev (a ++ [x]).
Proof.
  intros Hx. unfold match_at.
  do 12 (destruct a as [|? a];
         [cbn; rewrite Hx; cbn; rewrite ?andb_false_r; reflexivity|]).
  destruct a as [|? a]; reflexivity.
Qed.

Lemma match_at_short prev a x r :
  length a < 12 -> is_digit x = false -> match_at prev (a ++ x :: r) = false.
Proof.
  intros Hlen Hx. unfold match_at.
  do 12 (destruct a as [|? a];
         [cbn; rewrite Hx; cbn; rewrite ?andb_false_r; reflexivity|]).
  simpl in Hlen. lia.
Qed.

Lemma match_at_short_end prev a :
  length a < 12 -> match_at prev a = false.
Proof.
  intros Hlen. unfold match_at.
  rewrite firstn_all2 by lia.
  destruct (Nat.eqb_spec (length a) 12); [lia|].
  rewrite andb_false_r. reflexivity.
Qed.

Lemma scan_copy prev c rest :
  match_at prev (c :: rest) = false ->
  scan prev (c :: rest) = c :: scan (Some c) rest.
Proof. intros H. rewrite scan_cons, H. reflexivity. Qed.

Lemma firstn_12_app (run after : pystr) :
  length run = 12 -> firstn 12 (run ++ after) = run.
Proof.
  intros H. rewrite firstn_app, H, Nat.sub_diag, firstn_O, app_nil_r.
  apply firstn_all2. lia.
Qed.

Lemma skipn_12_app (run after : pystr) :
  length run = 12 -> skipn 12 (run ++ after) = after.
Proof.
  intros H. rewrite skipn_app, H, Nat.sub_diag, skipn_O.
  rewrite skipn_all2 by lia. reflexivity.
Qed.

Lemma scan_match prev run after :
  length run = 12 ->
  match_at prev (run ++ after) = true ->
  scan prev (run ++ after) = replacement run ++ scan (last_error run) after.
Proof.
  intros Hlen M. destruct run as [|c run']; [discriminate|].
  change ((c :: run') ++ after) with (c :: (run' ++ after)) in *.
  rewrite scan_cons, M.
  change (c :: (run' ++ after)) with ((c :: run') ++ after).
  rewrite firstn_12_app, skipn_12_app by assumption. reflexivity.
Qed.

Lemma match_at_bounded prev run after :
  length run = 12 ->
  Forall (fun c => is_digit c = true) run ->
  boundary prev (hd_error run) = true ->
  boundary (last_error run) (hd_error after) = true ->
  match_at prev (run ++ after) = true.
Proof.
  intros Hlen Hd Hb Ha. unfold match_at.
  rewrite firstn_12_app, skipn_12_app by assumption.
  rewrite Hlen, Ha. cbn [Nat.eqb andb].
  replace (hd_error (run ++ after)) with (hd_error run)
    by (destruct run; [discriminate|reflexivity]).
  rewrite Hb. cbn. rewrite andb_true_r.
  apply forallb_forall. intros c Hc.
  rewrite Forall_forall in Hd. auto.
Qed.

(** A non-digit cuts the subject in two parts that are scanned
    independently. *)
Lemma scan_split n : forall a, length a <= n -> forall prev x r,
  is_digit x = false ->
  scan prev (a ++ x :: r) = scan prev (a ++ [x]) ++ scan (Some x) r.
Proof.
  induction n as [|n IH]; intros a Hlen prev x r Hx.
  - destruct a; [|simpl in Hlen; lia]. cbn [app].
    rewrite !scan_copy by (apply match_at_nondigit; assumption).
    rewrite scan_nil. reflexivity.
  - destruct a as [|c a'].
    + cbn [app]. rewrite !scan_copy by (apply match_at_nondigit; assumption).
      rewrite scan_nil. reflexivity.
    + pose proof (match_at_app_nondigit prev (c :: a') x r Hx) as Hm.
      cbn [app] in *. rewrite !scan_cons, Hm.
      destruct (match_at prev (c :: a' ++ [x])) eqn:M.
      * assert (Hge : 12 <= length (c :: a')).
        { destruct (Nat.lt_ge_cases (length (c :: a')) 12) as [Hs|]; [|assumption].
          pose proof (match_at_short prev (c :: a') x [] Hs Hx) as Hf.
          cbn [app] in Hf. congruence. }
        change (c :: a' ++ x :: r) with ((c :: a') ++ x :: r).
        change (c :: a' ++ [x]) with ((c :: a') ++ [x]).
        rewrite !firstn_app, !skipn_app.
        replace (12 - length (c :: a')) with 0 by lia.
        rewrite !firstn_O, !skipn_O, !app_nil_r.
        assert (Hsk : length (skipn 12 (c :: a')) <= n).
        { change (skipn 12 (c :: a')) with (skipn 11 a').
          pose proof (skipn_length_le 11 a'). simpl in Hlen. lia. }
        rewrite (IH _ Hsk _ _ _ Hx), app_assoc. reflexivity.
      * assert (Hle : length a' <= n) by (simpl in Hlen; lia).
        rewrite (IH _ Hle _ _ _ Hx). reflexivity.
Qed.

Lemma scan_word_run prev a :
  word_at prev = true ->
  Forall (fun c => is_word c = true) a ->
  scan prev a = a.
Proof.
  intros Hp Ha. revert prev Hp.
  induction Ha as [|c a Hc Ha IH]; intros prev Hp; [reflexivity|].
  rewrite scan_copy by (apply match_at_after_word; assumption).
  rewrite IH; [reflexivity|assumption].
Qed.

Lemma scan_word_run_stop prev a x :
  word_at prev = true ->
  Forall (fun c => is_word c = true) a ->
  is_digit x = false ->
  scan prev (a ++ [x]) = a ++ [x].
Proof.
  intros Hp Ha Hx. revert prev Hp.
  induction Ha as [|c a Hc Ha IH]; intros prev Hp.
  - cbn [app]. rewrite scan_copy by (apply match_at_nondigit; assumption).
    reflexivity.
  - cbn [app]. rewrite scan_copy by (apply match_at_after_word; assumption).
    rewrite IH; [reflexivity|assumption].
Qed.

Lemma digits_prefix (s : pystr) :
  Forall (fun c => is_digit c = true) s
  \/ exists a x r, s = a ++ x :: r
                   /\ Forall (fun c => is_digit c = true) a
                   /\ is_digit x = false.
Proof.
  induction s as [|c s IH]; [left; constructor|].
  destruct (is_digit c) eqn:Ec.
  - destruct IH as [IH|(a & x & r & -> & Ha & Hx)].
    + left. constructor; assumption.
    + right. exists (c :: a), x, r. repeat split; [constructor|]; assumption.
  - right. exists [], c, s. repeat split; [constructor|assumption].
Qed.

Lemma digits_are_words (a : pystr) :
  Forall (fun c => is_digit c = true) a -> Forall (fun c => is_word c = true) a.
Proof. apply Forall_impl. intros c. apply digit_is_word. Qed.

(** Masking what follows a character does not change whether the pattern
    matches at that character. *)
Lemma match_at_scan_tail prev c rest :
  match_at prev (c :: scan (Some c) rest) = match_at prev (c :: rest).
Proof.
  destruct (is_digit c) eqn:Ec.
  2:{ rewrite !match_at_nondigit by assumption. reflexivity. }
  assert (Hw : word_at (Some c) = true) by (apply digit_is_word; assumption).
  destruct (digits_prefix rest) as [Hall|(a & x & r & -> & Ha & Hx)].
  - rewrite scan_word_run; [reflexivity|assumption|].
    apply digits_are_words; assumption.
  - rewrite (scan_split (length a) a (Nat.le_refl _) _ _ _ Hx).
    rewrite scan_word_run_stop; [|assumption|apply digits_are_words; assumption|assumption].
    rewrite <- app_assoc. cbn [app].
    change (c :: a ++ x :: scan (Some x) r) with ((c :: a) ++ x :: scan (Some x) r).
    change (c :: a ++ x :: r) with ((c :: a) ++ x :: r).
    rewrite (match_at_app_nondigit prev (c :: a) x (scan (Some x) r) Hx).
    rewrite (match_at_app_nondigit prev (c :: a) x r Hx). reflexivity.
Qed.

Lemma no_match_cons prev c s :
  match_at prev (c :: s) = false ->
  no_match prev (c :: s) = no_match (Some c) s.
Proof. intros H. cbn [no_match]. rewrite H. reflexivity. Qed.

Lemma no_match_scan_id : forall s prev, no_match prev s = true -> scan prev s = s.
Proof.
  induction s as [|c s IH]; intros prev H; [reflexivity|].
  cbn [no_match] in H. apply andb_true_iff in H as [Hm Hs].
  apply negb_true_iff in Hm.
  rewrite scan_copy by assumption. rewrite IH; [reflexivity|assumption].
Qed.

Lemma replacement_unfold m :
  replacement m
  = 88%N :: 88%N :: 88%N :: 88%N :: 45%N
    :: 88%N :: 88%N :: 88%N :: 88%N :: 45%N :: skipn 8 m.
Proof. reflexivity. Qed.

Lemma no_match_replacement prev run tail :
  length run = 12 ->
  forallb is_digit run = true ->
  tail = [] \/ (exists x out, tail = x :: out /\ is_digit x = false
                              /\ no_match (Some x) out = true) ->
  no_match prev (replacement run ++ tail) = true.
Proof.
  intros Hlen Hd Htail. rewrite replacement_unfold.
  do 12 (destruct run as [|? run]; [discriminate|]).
  destruct run; [|discriminate].
  cbn [skipn app].
  pose proof letter_X_not_digit as HX. pose proof hyphen_not_digit as HH.
  do 10 (rewrite no_match_cons
          by (apply match_at_nondigit; assumption)).
  destruct Htail as [->|(x & out & -> & Hx & Hout)].
  - do 4 (rewrite no_match_cons
            by (apply match_at_short_end; simpl; lia)).
    reflexivity.
  - rewrite (no_match_cons (Some 45%N))
      by (apply (match_at_short _ [_; _; _; _]); [simpl; lia|assumption]).
    rewrite (no_match_cons (Some _))
      by (apply (match_at_short _ [_; _; _]); [simpl; lia|assumption]).
    rewrite (no_match_cons (Some _))
      by (apply (match_at_short _ [_; _]); [simpl; lia|assumption]).
    rewrite (no_match_cons (Some _))
      by (apply (match_at_short _ [_]); [simpl; lia|assumption]).
    rewrite no_match_cons by (apply match_at_nondigit; assumption).
    assumption.
Qed.

Lemma match_at_parts prev s :
  match_at prev s = true ->
  length (firstn 12 s) = 12
  /\ forallb is_digit (firstn 12 s) = true
  /\ boundary prev (hd_error s) = true
  /\ boundary (last_error (firstn 12 s)) (hd_error (skipn 12 s)) = true.
Proof.
  unfold match_at. intros H.
  repeat (apply andb_true_iff in H as [H ?]).
  repeat split; try assumption. apply Nat.eqb_eq. assumption.
Qed.

Lemma last_error_digit run :
  length run = 12 -> forallb is_digit run = true ->
  word_at (last_error run) = true.
Proof.
  intros Hlen Hd.
  do 12 (destruct run as [|? run]; [discriminate|]).
  destruct run; [|discriminate].
  cbn [last_error word_at]. cbn [forallb] in Hd.
  repeat (apply andb_true_iff in Hd as [? Hd]).
  apply digit_is_word. assumption.
Qed.

(** What follows a match starts with a character that is not a digit. *)
Lemma after_match run after :
  length run = 12 -> forallb is_digit run = true ->
  boundary (last_error run) (hd_error after) = true ->
  after = [] \/ exists x r, after = x :: r /\ is_digit x = false.
Proof.
  intros Hlen Hd Hb. destruct after as [|x r]; [left; reflexivity|].
  right. exists x, r. split; [reflexivity|].
  unfold boundary in Hb. rewrite (last_error_digit run Hlen Hd) in Hb.
  cbn [hd_error word_at xorb] in Hb. apply negb_true_iff in Hb.
  apply not_word_not_digit. assumption.
Qed.

(** The output of the scan has no match left. *)
Lemma scan_no_match n : forall s, length s <= n -> forall prev,
  no_match prev (scan prev s) = true.
Proof.
  induction n as [|n IH]; intros s Hlen prev.
  - destruct s; [reflexivity|simpl in Hlen; lia].
  - destruct s as [|c rest]; [reflexivity|].
    rewrite scan_cons. destruct (match_at prev (c :: rest)) eqn:M.
    + destruct (match_at_parts _ _ M) as (Hl & Hd & _ & Hb).
      apply no_match_replacement; [assumption|assumption|].
      destruct (after_match _ _ Hl Hd Hb) as [E|(x & r & E & Hx)].
      * left. rewrite E. reflexivity.
      * right. exists x, (scan (Some x) r). rewrite E.
        rewrite scan_copy by (apply match_at_nondigit; assumption).
        repeat split; [assumption|]. apply IH.
        assert (length (skipn 12 (c :: rest)) <= length rest).
        { change (skipn 12 (c :: rest)) with (skipn 11 rest).
          apply skipn_length_le. }
        rewrite E in H. simpl in H, Hlen. lia.
    + cbn [no_match]. rewrite match_at_scan_tail, M. cbn [negb andb].
      apply IH. simpl in Hlen. lia.
Qed.

Lemma last_error_cons {A} (c : A) (l : list A) :
  last_error (c :: l) = match last_error l with Some x => Some x | None => Some c end.
Proof.
  revert c. induction l as [|d l IH]; intros c; [reflexivity|].
  change (last_error (c :: d :: l)) with (last_error (d :: l)).
  rewrite IH. destruct (last_error l); reflexivity.
Qed.

Lemma last_error_snoc {A} (l : list A) (x : A) : last_error (l ++ [x]) = Some x.
Proof.
  induction l as [|c l IH]; [reflexivity|].
  cbn [app]. rewrite last_error_cons, IH. reflexivity.
Qed.

Lemma last_error_none {A} (l : list A) : last_error l = None -> l = [].
Proof.
  destruct l as [|c l]; [reflexivity|].
  rewrite last_error_cons. destruct (last_error l); discriminate.
Qed.

(** [no_match] speaks of every position of the subject. *)
Lemma no_match_position : forall b prev t,
  no_match prev (b ++ t) = true ->
  match_at (match last_error b with Some c => Some c | None => prev end) t = false.
Proof.
  induction b as [|c b IH]; intros prev t H.
  - cbn [app last_error] in *. destruct t as [|x t]; [apply match_at_nil|].
    cbn [no_match] in H. apply andb_true_iff in H as [H _].
    apply negb_true_iff in H. assumption.
  - cbn [app no_match] in H. apply andb_true_iff in H as [_ H].
    apply IH in H. rewrite last_error_cons.
    destruct (last_error b); assumption.
Qed.

Lemma scan_after_match prev after :
  after = [] \/ (exists x r, after = x :: r /\ is_digit x = false) ->
  scan prev after = scan None after.
Proof.
  intros [->|(x & r & -> & Hx)]; [reflexivity|].
  rewrite !scan_copy by (apply match_at_nondigit; assumption). reflexivity.
Qed.

(** Masking is compositional around a bounded 12-digit run. *)
Lemma mask_aadhaar_around before run after :
  bounded_run before run after ->
  mask_aadhaar (before ++ run ++ after)
  = mask_aadhaar before ++ replacement run ++ mask_aadhaar after.
Proof.
  intros (Hlen & Hd & Hb & Ha). rewrite !mask_aadhaar_scan.
  assert (Hdb : forallb is_digit run = true).
  { apply forallb_forall. rewrite Forall_forall in Hd. auto. }
  pose proof (after_match _ _ Hlen Hdb Ha) as Hafter.
  assert (Hrun : forall prev, boundary prev (hd_error run) = true ->
            scan prev (run ++ after) = replacement run ++ scan None after).
  { intros prev Hp. rewrite scan_match; [|assumption|].
    - rewrite (scan_after_match _ _ Hafter). reflexivity.
    - apply match_at_bounded; assumption. }
  destruct (last_error before) as [n|] eqn:El.
  - destruct before as [|c0 b0]; [discriminate|].
    destruct (@exists_last _ (c0 :: b0)) as (b' & n' & E); [discriminate|].
    rewrite E in *. rewrite last_error_snoc in El. injection El as ->.
    assert (Hn : is_digit n = false).
    { apply not_word_not_digit. unfold boundary in Hb.
      destruct run as [|d run']; [discriminate|].
      inversion Hd as [|? ? Hd1 _]; subst.
      cbn [hd_error word_at] in Hb. rewrite (digit_is_word _ Hd1) in Hb.
      destruct (is_word n); [discriminate|reflexivity]. }
    rewrite <- app_assoc. cbn [app].
    rewrite (scan_split (length b') b' (Nat.le_refl _) _ _ _ Hn).
    rewrite Hrun by assumption. rewrite app_assoc. reflexivity.
  - apply last_error_none in El. subst before. cbn [app].
    rewrite scan_nil. apply Hrun. assumption.
Qed.

Lemma mask_aadhaar_no_match x : no_match None (mask_aadhaar x) = true.
Proof. apply (scan_no_match (length x)). apply Nat.le_refl. Qed.

Lemma mask_aadhaar_fixed s : no_match None s = true -> mask_aadhaar s = s.
Proof. apply no_match_scan_id. Qed.

End MaskFacts.

(** C4 (as amended).  Wherever a text holds a 12-digit run bounded by word
    boundaries, [mask_aadhaar] masks what precedes the run, puts
    [XXXX-XXXX-] and the run's last four digits in its place, and masks what
    follows; so the output contains [XXXX-XXXX-<last4>], and no 12-digit run
    bounded by word boundaries is left anywhere in it. *)
Theorem mask_aadhaar_replaces_bounded_runs {U : Unicode} :
  forall before run after : pystr,
    bounded_run before run after ->
    let masked := mask_aadhaar (before ++ run ++ after) in
    masked = mask_aadhaar before ++ (lit "XXXX-XXXX-" ++ skipn 8 run)
               ++ mask_aadhaar after
    /\ occurs_in (lit "XXXX-XXXX-" ++ skipn 8 run) masked
    /\ forall b r a, masked = b ++ r ++ a -> ~ bounded_run b r a.
Proof.
  intros before run after Hrun masked.
  assert (E : masked = mask_aadhaar before ++ replacement run ++ mask_aadhaar after)
    by (apply mask_aadhaar_around; assumption).
  split; [exact E|]. split.
  - exists (mask_aadhaar before), (mask_aadhaar after). exact E.
  - intros b r a Eb (Hlen & Hd & Hb & Ha).
    pose proof (mask_aadhaar_no_match (before ++ run ++ after)) as Hno.
    unfold masked in Eb. rewrite Eb in Hno. apply no_match_position in Hno.
    assert (Hm : match_at (last_error b) (r ++ a) = true)
      by (apply match_at_bounded; assumption).
    destruct (last_error b); congruence.
Qed.

(** C9.  Masking an already masked text changes nothing. *)
Theorem mask_aadhaar_idempotent {U : Unicode} :
  forall x : pystr, mask_aadhaar (mask_aadhaar x) = mask_aadhaar x.
Proof.
  intros x. apply mask_aadhaar_fixed, mask_aadhaar_no_match.
Qed.

Example mask_aadhaar_example :
  mask_aadhaar (lit "123412345678") = lit "XXXX-XXXX-5678".
Proof. vm_compute. reflexivity. Qed.

Example test_mask_aadhaar :
  occurs_in (lit "XXXX-XXXX-1234") (mask_aadhaar (lit "AadhaAr: 123456781234")).
Proof. exists (lit "AadhaAr: "), []. vm_compute. reflexivity. Qed.

Lemma mask_aadhaar_replaces_bounded_runs_witness :
  bounded_run (lit "Aadhaar: ") (lit "123412345678") (lit " (mine)")
  /\ let masked := mask_aadhaar (lit "Aadhaar: " ++ lit "123412345678" ++ lit " (mine)") in
     masked = mask_aadhaar (lit "Aadhaar: ")
                ++ (lit "XXXX-XXXX-" ++ skipn 8 (lit "123412345678"))
                ++ mask_aadhaar (lit " (mine)")
     /\ occurs_in (lit "XXXX-XXXX-" ++ skipn 8 (lit "123412345678")) masked
     /\ forall b r a, masked = b ++ r ++ a -> ~ bounded_run b r a.
Proof.
  assert (H : bounded_run (lit "Aadhaar: ") (lit "123412345678") (lit " (mine)")).
  { repeat split; try reflexivity. repeat constructor. }
  split; [exact H|].
  exact (mask_aadhaar_replaces_bounded_runs
           (lit "Aadhaar: ") (lit "123412345678") (lit " (mine)") H).
Defined.

(** C4 as stated fails: the twelve digits of a bounded run may occur once
    more inside a longer word, where the pattern does not match, and are
    then still in the output. *)
Lemma mask_aadhaar_keeps_unbounded_copy :
  let run := lit "123412345678" in
  let after := lit " ref A123412345678" in
  bounded_run [] run after
  /\ occurs_in run (mask_aadhaar ([] ++ run ++ after)).
Proof.
  split.
  - repeat split; try reflexivity. repeat constructor.
  - exists (lit "XXXX-XXXX-5678 ref A"), []. vm_compute. reflexivity.
Qed.

(* --------------------------------------------------------------------- *)
(** ** Conversation context *)
(* --------------------------------------------------------------------- *)

Lemma last_n_short {A} (n : nat) (l : list A) : length l <= n -> last_n n l = l.
Proof.
  intros H. destruct n; [reflexivity|]. unfold last_n.
  replace (length l - S n) with 0 by lia. reflexivity.
Qed.

Lemma get_recent_length session limit db :
  length (get_recent session limit db) <= limit.
Proof. unfold get_recent. rewrite length_map. apply firstn_le_length. Qed.

(** The context lists the turns in the order [get_recent] returns them,
    which is newest first. *)
Lemma build_conversation_context_newest_first {U : Unicode} db session n :
  get_recent session n db <> [] ->
  build_conversation_context db session n
  = lit "Previous conversation:" ++ [10%N]
    ++ concat (map context_line (get_recent session n db)) ++ [10%N].
Proof.
  intros H. unfold build_conversation_context.
  rewrite (last_n_short n (get_recent session n db)) by apply get_recent_length.
  destruct (get_recent session n db); [contradiction|reflexivity].
Qed.

(** C6.  After a user turn [a] and an assistant turn [b], the context lists
    the assistant turn first: the turns come newest first, not oldest
    first. *)
Theorem build_conversation_context_order :
  let s := lit "default" in
  let db := add_turn s (lit "assistant") (lit "b")
              (add_turn s (lit "user") (lit "a") []) in
  build_conversation_context db s 5
  = lit "Previous conversation:" ++ [10%N]
    ++ lit "Assistant: b" ++ [10%N]
    ++ lit "User: a" ++ [10%N]
    ++ [10%N].
Proof. vm_compute. reflexivity. Qed.

Lemma build_conversation_context_empty {U : Unicode} db session n :
  get_recent session n db = [] ->
  build_conversation_context db session n = start_of_conversation.
Proof. intros H. unfold build_conversation_context. rewrite H. reflexivity. Qed.

(* --------------------------------------------------------------------- *)
(** ** Clarification decision *)
(* --------------------------------------------------------------------- *)

(** C3.  When the call to the completion service fails, or the text it
    returns does not decode, the decision is [clarification_fallback
    grounding], a function of the grounding text alone: a grounding shorter
    than 50 characters (the empty one included) asks for clarification with
    the fixed question and confidence 0.3, any other proceeds with
    confidence 0.7. *)
Theorem clarification_fallback_deterministic {U : Unicode} (llm : Collaborator) :
  forall query grounding history : pystr,
    let sent := if truthy grounding then grounding
                else lit "No relevant information found." in
    invoke_clarification llm query history sent = None
    \/ (exists result, invoke_clarification llm query history sent = Some result
                       /\ json_loads llm (extract_json_text result) = None) ->
    let d := check_needs_clarification_with_llm llm query grounding history in
    d = clarification_fallback grounding
    /\ (length grounding < 50 ->
        needs_clarification d = true
        /\ clarification_question d = fallback_question
        /\ confidence d = 3 # 10)
    /\ (50 <= length grounding ->
        needs_clarification d = false /\ confidence d = 7 # 10).
Proof.
  intros query grounding history sent Hfail d.
  assert (E : d = clarification_fallback grounding).
  { unfold d, check_needs_clarification_with_llm. fold sent.
    destruct Hfail as [->|(result & -> & ->)]; reflexivity. }
  split; [exact E|]. rewrite E. unfold clarification_fallback.
  split; intros Hlen.
  - apply Nat.ltb_lt in Hlen. rewrite Hlen, orb_true_r. repeat split.
  - assert (Hn : (length grounding <? 50) = false) by (apply Nat.ltb_ge; assumption).
    destruct grounding as [|c g]; [simpl in Hlen; lia|].
    rewrite Hn. cbn [truthy negb orb]. split; reflexivity.
Qed.

Lemma clarification_fallback_deterministic_witness :
  (invoke_clarification offline (lit "claim status?") [] (lit "No relevant information found.") = None
   \/ exists result,
        invoke_clarification offline (lit "claim status?") [] (lit "No relevant information found.")
        = Some result
        /\ json_loads offline (extract_json_text result) = None)
  /\ check_needs_clarification_with_llm offline (lit "claim status?") [] []
     = clarification_fallback [].
Proof.
  assert (H : invoke_clarification offline (lit "claim status?") []
                (lit "No relevant information found.") = None
              \/ exists result,
                   invoke_clarification offline (lit "claim status?") []
                     (lit "No relevant information found.") = Some result
                   /\ json_loads offline (extract_json_text result) = None)
    by (left; reflexivity).
  split; [exact H|].
  exact (proj1 (clarification_fallback_deterministic offline
                  (lit "claim status?") [] [] H)).
Defined.

(* --------------------------------------------------------------------- *)
(** ** Brace extraction *)
(* --------------------------------------------------------------------- *)

Section Extraction.
Context {U : Unicode}.





Lemma find_absent c s : ~ In c s -> find c s = (-1)%Z.
Proof.
  induction s as [|x s IH]; intros H; [reflexivity|].
  cbn [find]. unfold pychar_eqb. destruct (N.eqb_spec x c) as [->|_].
  - exfalso. apply H. left. reflexivity.
  - rewrite IH; [reflexivity|]. intros Hin. apply H. right. assumption.
Qed.




Lemma slice_between (a m b : pystr) (i j : Z) :
  i = Z.of_nat (length a) -> j = Z.of_nat (length a + length m) ->
  slice (a ++ m ++ b) i j = m.
Proof.
  intros -> ->. unfold slice. rewrite Nat2Z.id.
  replace (Z.to_nat (Z.of_nat (length a + length m) - Z.of_nat (length a)))
    with (length m) by lia.
  rewrite skipn_app, Nat.sub_diag, skipn_all2 by lia. cbn [skipn app].
  rewrite firstn_app, Nat.sub_diag, firstn_all2 by lia.
  cbn [firstn]. apply app_nil_r.
Qed.


(** Without a [{] there is nothing to cut: the whole stripped text is
    parsed. *)
Lemma extract_json_text_no_brace result :
  ~ In 123%N (strip result) -> extract_json_text result = strip result.
Proof.
  intros H. unfold extract_json_text. rewrite find_absent by assumption.
  reflexivity.
Qed.

End Extraction.




(* --------------------------------------------------------------------- *)
(** ** The chat turn *)
(* --------------------------------------------------------------------- *)

(** C10.  [ChatRequest] takes any integer [k].  With [k] outside 1..6 and a
    message that is not empty once stripped and masked, the user turn is
    stored, [QueryRequest] is refused inside [call_ask], and the turn ends
    in a 502; an empty message ends in a 400 before [k] is looked at. *)
Theorem chat_k_out_of_range {U : Unicode} (eng : Engine) (llm : Collaborator) :
  forall (st : AppState) (req : ChatRequest) (db : History),
    (req_k req < 1 \/ 6 < req_k req)%Z ->
    let user_msg := mask_aadhaar (strip (message req)) in
    (forall query, call_ask eng st query (req_k req) = inl (HTTP 502))
    /\ (user_msg <> [] ->
        chat eng llm st req db
        = (inl (HTTP 502), add_turn (session_id req) (lit "user") user_msg db))
    /\ (user_msg = [] -> chat eng llm st req db = (inl (HTTP 400), db)).
Proof.
  intros st req db Hk user_msg.
  assert (Hask : forall query, call_ask eng st query (req_k req) = inl (HTTP 502)).
  { intros query. unfold call_ask, QueryRequest.
    replace ((1 <=? req_k req)%Z && (req_k req <=? 6)%Z) with false; [reflexivity|].
    symmetry. apply andb_false_iff.
    destruct Hk; [left; apply Z.leb_gt|right; apply Z.leb_gt]; assumption. }
  split; [exact Hask|]. unfold chat. fold user_msg. split; intros H.
  - destruct user_msg; [congruence|]. cbn [truthy negb].
    rewrite Hask. reflexivity.
  - rewrite H. reflexivity.
Qed.

Lemma chat_k_out_of_range_witness :
  (0 < 1 \/ 6 < 0)%Z
  /\ chat demo_engine offline initial_state
       {| message := lit "hello"; session_id := lit "s"; req_k := 0 |} []
     = (inl (HTTP 502), add_turn (lit "s") (lit "user") (lit "hello") []).
Proof.
  assert (Hk : (0 < 1 \/ 6 < 0)%Z) by (left; reflexivity).
  split; [exact Hk|].
  refine (proj1 (proj2 (chat_k_out_of_range demo_engine offline initial_state
                   {| message := lit "hello"; session_id := lit "s"; req_k := 0 |}
                   [] Hk)) _).
  discriminate.
Defined.

(** C5.  A turn on the clarification branch: the completion service asks
    the user to confirm a 12-digit number, and the question is stored and
    returned as it came, although masking would change it. *)
Theorem chat_clarification_reply_unmasked :
  let st := demo_state in
  let req := {| message := lit "Is water damage covered?";
                session_id := lit "s1"; req_k := 2 |} in
  let question := lit "Is 123412345678 the Aadhaar number on the policy?" in
  match chat demo_engine demo_collaborator st req [] with
  | (inr resp, db) =>
      used_clarification resp = true
      /\ reply resp = question
      /\ last_error db = Some {| turn_session := lit "s1";
                                 turn_role := lit "assistant";
                                 turn_text := question |}
      /\ mask_aadhaar question
         = lit "Is XXXX-XXXX-5678 the Aadhaar number on the policy?"
  | (inl _, _) => False
  end.
Proof. vm_compute. repeat split. Qed.

(** On the other branch the reply is masked before it is stored and
    returned, and so is the user message on both. *)
Lemma chat_answer_reply_masked {U : Unicode} (eng : Engine) (llm : Collaborator)
    st req db resp db' :
  chat eng llm st req db = (inr resp, db') ->
  used_clarification resp = false ->
  mask_aadhaar (reply resp) = reply resp.
Proof.
  unfold chat.
  destruct (truthy (mask_aadhaar (strip (message req)))); cbn [negb];
    [|discriminate].
  destruct (call_ask eng st _ (req_k req)) as [e|ask_resp]; [discriminate|].
  destruct (needs_clarification _); intros H; injection H as <- _; cbn.
  - discriminate.
  - intros _. apply mask_aadhaar_fixed, mask_aadhaar_no_match.
Qed.

(* --------------------------------------------------------------------- *)
(** ** Retrieval *)
(* --------------------------------------------------------------------- *)

Lemma round_half_even_bounds x :
  (Qfloor x <= round_half_even x <= Qfloor x + 1)%Z.
Proof.
  unfold round_half_even.
  destruct (x - inject_Z (Qfloor x) ?= 1 # 2)%Q; [destruct (Z.even _)| |]; lia.
Qed.

Lemma round_half_even_le x y :
  (x <= y)%Q -> (round_half_even x <= round_half_even y)%Z.
Proof.
  intros H. pose proof (Qfloor_resp_le x y H) as Hf.
  destruct (Z.eq_dec (Qfloor x) (Qfloor y)) as [E|NE].
  - unfold round_half_even. rewrite <- E.
    destruct (Qcompare_spec (x - inject_Z (Qfloor x)) (1 # 2)) as [Hx|Hx|Hx];
      destruct (Qcompare_spec (y - inject_Z (Qfloor x)) (1 # 2)) as [Hy|Hy|Hy];
      try (destruct (Z.even (Qfloor x))); try lia; exfalso; lra.
  - pose proof (round_half_even_bounds x). pose proof (round_half_even_bounds y).
    lia.
Qed.

Lemma round4_le x y : (x <= y)%Q -> (round4 x <= round4 y)%Q.
Proof.
  intros H. unfold round4, Qle. cbn [Qnum Qden].
  apply Z.mul_le_mono_nonneg_r; [lia|].
  apply round_half_even_le. lra.
Qed.



Section RetrievalFacts.
Context {U : Unicode}.
Variable eng : Engine.

(** The loop yields one result per label, in the order of the labels. *)
Lemma retrieve_loop_spec store query : forall indices results similarities,
  retrieve_loop eng store query indices = Some (results, similarities) ->
  length results = length indices
  /\ map (fun c => Some (doc c, full_snippet c)) results
     = map (py_index store) indices
  /\ similarities = map (hit_similarity eng store query) indices
  /\ similarities = map (fun c => cosine_sim eng query (full_snippet c)) results
  /\ map similarity_score results = map round4 similarities.
Proof.
  induction indices as [|idx rest IH]; intros results similarities H.
  - injection H as <- <-. repeat split.
  - cbn [retrieve_loop] in H. unfold hit_similarity. cbn [map].
    destruct (py_index store idx) as [[doc_name snippet]|] eqn:Ei; [|discriminate].
    destruct (retrieve_loop eng store query rest) as [[rs ss]|]; [|discriminate].
    injection H as <- <-.
    destruct (IH rs ss eq_refl) as (Hlen & Hord & Hsim & Hcos & Hscore).
    cbn [length map doc full_snippet similarity_score].
    repeat split; try congruence.
    f_equal. exact Hsim.
Qed.


Lemma qsum_bounds (l : list Q) :
  Forall (fun x => (-1 <= x <= 1)%Q) l ->
  (- inject_Z (Z.of_nat (length l)) <= qsum l <= inject_Z (Z.of_nat (length l)))%Q.
Proof.
  induction 1 as [|x l Hx _ IH].
  - cbn [qsum length]. change (inject_Z (Z.of_nat 0)) with 0%Q. lra.
  - cbn [qsum length]. rewrite Nat2Z.inj_succ. unfold Z.succ.
    rewrite inject_Z_plus. change (inject_Z 1) with 1%Q. lra.
Qed.

Lemma mean_bounds (l : list Q) :
  l <> [] ->
  Forall (fun x => (-1 <= x <= 1)%Q) l ->
  (-1 <= mean l <= 1)%Q.
Proof.
  intros Hne Hl. pose proof (qsum_bounds l Hl) as [Hlo Hhi].
  assert (Hn : (0 < inject_Z (Z.of_nat (length l)))%Q).
  { destruct l; [contradiction|]. cbn [length].
    rewrite <- (Zlt_Qlt 0). lia. }
  unfold mean. split.
  - apply Qle_shift_div_l; [assumption|]. lra.
  - apply Qle_shift_div_r; [assumption|]. lra.
Qed.

Lemma build_index_no_chunks files st :
  (forall f, In f files -> split_text eng (snd f) = []) ->
  build_index eng files st = st.
Proof.
  intros H. unfold build_index, chunk_text.
  replace (flat_map _ files) with (@nil (pystr * pystr)); [reflexivity|].
  symmetry. induction files as [|f files IH]; [reflexivity|].
  cbn [flat_map]. rewrite (H f (or_introl eq_refl)). cbn [map app].
  apply IH. intros f' Hf'. apply H. right. assumption.
Qed.

End RetrievalFacts.

Section ExactArithmetic.
Local Open Scope Q_scope.









End ExactArithmetic.

Section CosineFacts.
Context {U : Unicode}.
Variable eng : Engine.
Local Open Scope Q_scope.






End CosineFacts.







(** A row longer than the index: FAISS fills it with the label [-1], which
    Python's indexing resolves to the last chunk; the chunk nearest to the
    query then appears a second time at the end, below a farther one. *)
Example retrieve_short_index :
  map (fun c => (doc c, similarity_score c))
      (match retrieve demo_engine demo_state (lit "water") 3 with
       | inr (results, _) => results
       | inl _ => []
       end)
  = [(lit "b.txt", Qmake 10000 10000); (lit "a.txt", Qmake 6000 10000);
     (lit "b.txt", Qmake 10000 10000)].
Proof. vm_compute. reflexivity. Qed.


Lemma demo_cosine_range a b : (-1 <= cosine_sim demo_engine a b <= 1)%Q.
Proof.
  unfold cosine_sim. cbn [encode normalize demo_engine]. unfold demo_encode.
  destruct (pystr_eqb a (lit "water damage")), (pystr_eqb a (lit "water")),
    (pystr_eqb b (lit "water damage")), (pystr_eqb b (lit "water"));
    vm_compute; split; discriminate.
Qed.

Section GroundingFacts.
Context {U : Unicode}.
Variable eng : Engine.


End GroundingFacts.





(* ===================================================================== *)
(** * Further properties of the code *)
(* ===================================================================== *)

(* --------------------------------------------------------------------- *)
(** ** history_db.py *)
(* --------------------------------------------------------------------- *)

Lemma pystr_eqb_refl a : pystr_eqb a a = true.
Proof.
  induction a as [|x a IH]; [reflexivity|].
  cbn [pystr_eqb]. unfold pychar_eqb. rewrite N.eqb_refl. exact IH.
Qed.

Lemma pystr_eqb_eq a : forall b, pystr_eqb a b = true -> a = b.
Proof.
  induction a as [|x a IH]; intros [|y b] H; try discriminate; [reflexivity|].
  cbn [pystr_eqb] in H. apply andb_true_iff in H as [Hx Hr].
  apply N.eqb_eq in Hx. subst y. f_equal. apply IH. exact Hr.
Qed.

Lemma pystr_eqb_neq a b : a <> b -> pystr_eqb a b = false.
Proof.
  intros H. destruct (pystr_eqb a b) eqn:E; [|reflexivity].
  apply pystr_eqb_eq in E. contradiction.
Qed.

Lemma session_rows_add_same session role text db :
  filter (fun t => pystr_eqb (turn_session t) session) (add_turn session role text db)
  = filter (fun t => pystr_eqb (turn_session t) session) db
    ++ [{| turn_session := session; turn_role := role; turn_text := text |}].
Proof.
  unfold add_turn. rewrite filter_app. cbn [filter turn_session].
  rewrite pystr_eqb_refl. reflexivity.
Qed.

Lemma get_recent_add_same session role text n db :
  get_recent session (S n) (add_turn session role text db)
  = (role, text) :: get_recent session n db.
Proof.
  unfold get_recent. rewrite session_rows_add_same, rev_app_distr. reflexivity.
Qed.

Lemma get_recent_add_other session other role text n db :
  other <> session ->
  get_recent session n (add_turn other role text db) = get_recent session n db.
Proof.
  intros H. unfold get_recent, add_turn. rewrite filter_app.
  cbn [filter turn_session]. rewrite (pystr_eqb_neq other session H), app_nil_r. reflexivity.
Qed.

(** X1.  When the limit is greater than the number of turns of the
    session, [get_recent] after [add_turn] returns the added turn together
    with the turns it returned before, in some order. *)
Theorem get_recent_after_add_turn :
  forall (session role text : pystr) (n : nat) (db : History),
    length (get_recent session n db) < n ->
    Permutation (get_recent session n (add_turn session role text db))
                ((role, text) :: get_recent session n db).
Proof.
  intros session role text n db H.
  destruct n as [|n]; [lia|].
  rewrite get_recent_add_same.
  replace (get_recent session n db) with (get_recent session (S n) db);
    [apply Permutation_refl|].
  unfold get_recent in *. rewrite length_map, length_firstn in H.
  rewrite !firstn_all2 by lia. reflexivity.
Qed.

Lemma get_recent_after_add_turn_witness :
  length (get_recent (lit "a") 5 []) < 5
  /\ Permutation
       (get_recent (lit "a") 5 (add_turn (lit "a") (lit "user") (lit "hi") []))
       ((lit "user", lit "hi") :: get_recent (lit "a") 5 []).
Proof.
  assert (H : length (get_recent (lit "a") 5 []) < 5) by (cbn; lia).
  split; [exact H|].
  exact (get_recent_after_add_turn (lit "a") (lit "user") (lit "hi") 5 [] H).
Defined.

(** X2.  Adding a turn to one session does not change what [get_recent]
    returns for another. *)
Theorem get_recent_other_session :
  forall (session other role text : pystr) (n : nat) (db : History),
    other <> session ->
    get_recent session n (add_turn other role text db) = get_recent session n db.
Proof. intros. apply get_recent_add_other. assumption. Qed.

Lemma get_recent_other_session_witness :
  lit "b" <> lit "a"
  /\ get_recent (lit "a") 5 (add_turn (lit "b") (lit "user") (lit "hi") [])
     = get_recent (lit "a") 5 [].
Proof.
  assert (H : lit "b" <> lit "a") by discriminate.
  split; [exact H|].
  exact (get_recent_other_session (lit "a") (lit "b") (lit "user") (lit "hi") 5 [] H).
Defined.

(** X3.  After [clear_history] a session has no history left, and every
    other session has the history it had. *)
Theorem clear_history_only_that_session :
  forall (session : pystr) (db : History),
    get_history session (clear_history session db) = []
    /\ forall other, other <> session ->
         get_history other (clear_history session db) = get_history other db.
Proof.
  intros session db. unfold get_history, clear_history, get_recent, clear.
  split.
  - replace (filter _ (filter _ db)) with (@nil Turn); [reflexivity|].
    symmetry. induction db as [|t db IH]; [reflexivity|].
    cbn [filter]. destruct (pystr_eqb (turn_session t) session) eqn:E; cbn [negb].
    + exact IH.
    + cbn [filter]. rewrite E. exact IH.
  - intros other Hne. do 3 f_equal.
    induction db as [|t db IH]; [reflexivity|].
    cbn [filter]. destruct (pystr_eqb (turn_session t) session) eqn:E; cbn [negb].
    + apply pystr_eqb_eq in E.
      assert (Ho : pystr_eqb (turn_session t) other = false).
      { apply pystr_eqb_neq. rewrite E. auto. }
      rewrite Ho. exact IH.
    + cbn [filter]. destruct (pystr_eqb (turn_session t) other); [f_equal|]; exact IH.
Qed.

(** X4.  [get_recent] returns at most [limit] turns, and a smaller limit
    returns the first turns of what a larger one returns. *)
Theorem get_recent_limit :
  forall (session : pystr) (n m : nat) (db : History),
    n <= m ->
    length (get_recent session n db) <= n
    /\ get_recent session n db = firstn n (get_recent session m db).
Proof.
  intros session n m db H. split; [apply get_recent_length|].
  unfold get_recent. rewrite firstn_map, firstn_firstn.
  replace (Nat.min n m) with n by lia. reflexivity.
Qed.

Lemma get_recent_limit_witness :
  2 <= 5
  /\ get_recent (lit "s") 2 (add_turn (lit "s") (lit "user") (lit "hi") [])
     = firstn 2 (get_recent (lit "s") 5 (add_turn (lit "s") (lit "user") (lit "hi") [])).
Proof.
  assert (H : 2 <= 5) by lia.
  split; [exact H|].
  exact (proj2 (get_recent_limit (lit "s") 2 5
                  (add_turn (lit "s") (lit "user") (lit "hi") []) H)).
Defined.

(* --------------------------------------------------------------------- *)
(** ** aadhaar_mask.py *)
(* --------------------------------------------------------------------- *)

Section MaskMore.
Context {U : Unicode}.

(** A character that is not a word character ends a run exactly as the end
    of the text does. *)
Lemma match_at_snoc_nonword prev a n :
  is_word n = false -> match_at prev (a ++ [n]) = match_at prev a.
Proof.
  intros Hn. pose proof (not_word_not_digit n Hn) as Hd.
  destruct (Nat.lt_ge_cases (length a) 12) as [Hs|Hl].
  - rewrite (match_at_short prev a n [] Hs Hd).
    rewrite match_at_short_end by assumption. reflexivity.
  - unfold match_at.
    do 12 (destruct a as [|? a]; [simpl in Hl; lia|]).
    destruct a as [|? a]; [|reflexivity].
    cbn. unfold boundary. cbn [word_at]. rewrite Hn. reflexivity.
Qed.

Lemma scan_snoc_nonword k : forall a, length a <= k -> forall prev n,
  is_word n = false -> scan prev (a ++ [n]) = scan prev a ++ [n].
Proof.
  induction k as [|k IH]; intros a Hlen prev n Hn;
    pose proof (not_word_not_digit n Hn) as Hd.
  - destruct a; [|simpl in Hlen; lia]. cbn [app].
    rewrite scan_copy by (apply match_at_nondigit; assumption). reflexivity.
  - destruct a as [|c a'].
    + cbn [app]. rewrite scan_copy by (apply match_at_nondigit; assumption).
      reflexivity.
    + pose proof (match_at_snoc_nonword prev (c :: a') n Hn) as Hm.
      cbn [app] in *. rewrite !scan_cons, Hm.
      destruct (match_at prev (c :: a')) eqn:M.
      * assert (Hge : 12 <= length (c :: a')).
        { destruct (Nat.lt_ge_cases (length (c :: a')) 12) as [Hs|]; [|assumption].
          rewrite (match_at_short_end prev (c :: a') Hs) in M. discriminate. }
        change (c :: a' ++ [n]) with ((c :: a') ++ [n]).
        rewrite firstn_app, skipn_app.
        replace (12 - length (c :: a')) with 0 by lia.
        rewrite firstn_O, skipn_O, app_nil_r.
        assert (Hsk : length (skipn 12 (c :: a')) <= k).
        { change (skipn 12 (c :: a')) with (skipn 11 a').
          pose proof (skipn_length_le 11 a'). simpl in Hlen. lia. }
        rewrite (IH _ Hsk _ _ Hn), app_assoc. reflexivity.
      * assert (Hle : length a' <= k) by (simpl in Hlen; lia).
        rewrite (IH _ Hle _ _ Hn). reflexivity.
Qed.

Lemma scan_prev_nonword prev s :
  word_at prev = false -> scan prev s = scan None s.
Proof.
  intros Hp. destruct s as [|c r]; [reflexivity|].
  rewrite !scan_cons.
  replace (match_at prev (c :: r)) with (match_at None (c :: r)); [reflexivity|].
  unfold match_at, boundary. rewrite Hp. reflexivity.
Qed.

Lemma mask_aadhaar_separator a n b :
  is_word n = false ->
  mask_aadhaar (a ++ n :: b) = mask_aadhaar a ++ n :: mask_aadhaar b.
Proof.
  intros Hn. rewrite !mask_aadhaar_scan.
  rewrite (scan_split (length a) a (Nat.le_refl _) None n b
             (not_word_not_digit n Hn)).
  rewrite (scan_snoc_nonword (length a) a (Nat.le_refl _) None n Hn).
  rewrite (scan_prev_nonword (Some n) b Hn), <- app_assoc. reflexivity.
Qed.

Lemma no_match_short : forall s prev, length s < 12 -> no_match prev s = true.
Proof.
  induction s as [|c s IH]; intros prev H; [reflexivity|].
  rewrite no_match_cons by (apply match_at_short_end; assumption).
  apply IH. simpl in H. lia.
Qed.

Lemma no_match_nondigits : forall s prev,
  Forall (fun c => is_digit c = false) s -> no_match prev s = true.
Proof.
  induction s as [|c s IH]; intros prev H; [reflexivity|].
  inversion H as [|? ? Hc Hs]; subst.
  rewrite no_match_cons by (apply match_at_nondigit; assumption).
  apply IH. assumption.
Qed.

(** A match turns twelve characters into fourteen, every other step copies
    one character. *)
Lemma scan_length k : forall s, length s <= k -> forall prev,
  length s <= length (scan prev s) /\ 6 * length (scan prev s) <= 7 * length s.
Proof.
  induction k as [|k IH]; intros s Hlen prev.
  - destruct s; [cbn; lia|simpl in Hlen; lia].
  - destruct s as [|c rest]; [cbn; lia|].
    rewrite scan_cons. destruct (match_at prev (c :: rest)) eqn:M.
    + destruct (match_at_parts _ _ M) as (Hl & _).
      assert (Hsk : length (skipn 12 (c :: rest)) <= k).
      { change (skipn 12 (c :: rest)) with (skipn 11 rest).
        pose proof (skipn_length_le 11 rest). simpl in Hlen. lia. }
      destruct (IH _ Hsk (last_error (firstn 12 (c :: rest)))) as [Hlo Hhi].
      assert (Hr : length (replacement (firstn 12 (c :: rest))) = 14).
      { rewrite replacement_unfold. cbn [length]. rewrite length_skipn. lia. }
      assert (Hsplit : length (c :: rest)
                       = 12 + length (skipn 12 (c :: rest))).
      { rewrite <- Hl at 1. rewrite <- length_app, firstn_skipn. reflexivity. }
      rewrite length_app, Hr. lia.
    + assert (Hle : length rest <= k) by (simpl in Hlen; lia).
      destruct (IH _ Hle (Some c)) as [Hlo Hhi]. cbn [length]. lia.
Qed.

End MaskMore.

(** X5.  Masking works piece by piece around a character that is not a
    word character: the text before it and the text after it are masked
    independently and the character is kept. *)
Theorem mask_aadhaar_splits_at_separator {U : Unicode} :
  forall (a : pystr) (n : pychar) (b : pystr),
    is_word n = false ->
    mask_aadhaar (a ++ n :: b) = mask_aadhaar a ++ n :: mask_aadhaar b.
Proof. intros. apply mask_aadhaar_separator. assumption. Qed.

Lemma mask_aadhaar_splits_at_separator_witness :
  is_word 32%N = false
  /\ mask_aadhaar (lit "123412345678" ++ 32%N :: lit "999988887777")
     = mask_aadhaar (lit "123412345678") ++ 32%N :: mask_aadhaar (lit "999988887777").
Proof.
  assert (H : is_word 32%N = false) by reflexivity.
  split; [exact H|].
  exact (mask_aadhaar_splits_at_separator
           (lit "123412345678") 32%N (lit "999988887777") H).
Defined.

(** X6.  A text shorter than twelve characters, or without any digit, is
    returned as it is. *)
Theorem mask_aadhaar_unchanged {U : Unicode} :
  forall x : pystr,
    length x < 12 \/ Forall (fun c => is_digit c = false) x ->
    mask_aadhaar x = x.
Proof.
  intros x [H|H]; apply mask_aadhaar_fixed.
  - apply no_match_short. assumption.
  - apply no_match_nondigits. assumption.
Qed.

Lemma mask_aadhaar_unchanged_witness :
  (length (lit "12345678901") < 12
   \/ Forall (fun c => is_digit c = false) (lit "12345678901"))
  /\ mask_aadhaar (lit "12345678901") = lit "12345678901".
Proof.
  assert (H : length (lit "12345678901") < 12
              \/ Forall (fun c => is_digit c = false) (lit "12345678901"))
    by (left; cbn; lia).
  split; [exact H|].
  exact (mask_aadhaar_unchanged (lit "12345678901") H).
Defined.

(** X7.  Masking never shortens a text and lengthens it by at most a sixth:
    each masked number grows from twelve to fourteen characters. *)
Theorem mask_aadhaar_length {U : Unicode} :
  forall x : pystr,
    length x <= length (mask_aadhaar x)
    /\ 6 * length (mask_aadhaar x) <= 7 * length x.
Proof. intros x. apply (scan_length (length x)). apply Nat.le_refl. Qed.

(** X8.  Whatever the input, the output of masking holds no 12-digit run
    bounded by word boundaries. *)
Theorem mask_aadhaar_output_clean {U : Unicode} :
  forall x before run after : pystr,
    mask_aadhaar x = before ++ run ++ after ->
    ~ bounded_run before run after.
Proof.
  intros x b r a E (Hlen & Hd & Hb & Ha).
  pose proof (mask_aadhaar_no_match x) as Hno.
  rewrite E in Hno. apply no_match_position in Hno.
  assert (Hm : match_at (last_error b) (r ++ a) = true)
    by (apply match_at_bounded; assumption).
  destruct (last_error b); congruence.
Qed.

Lemma mask_aadhaar_output_clean_witness :
  mask_aadhaar (lit "id 123412345678") = lit "id XXXX-XXXX-" ++ lit "5678" ++ []
  /\ ~ bounded_run (lit "id XXXX-XXXX-") (lit "5678") [].
Proof.
  assert (H : mask_aadhaar (lit "id 123412345678")
              = lit "id XXXX-XXXX-" ++ lit "5678" ++ [])
    by (vm_compute; reflexivity).
  split; [exact H|].
  exact (mask_aadhaar_output_clean (lit "id 123412345678")
           (lit "id XXXX-XXXX-") (lit "5678") [] H).
Defined.

(* --------------------------------------------------------------------- *)
(** ** app.py *)
(* --------------------------------------------------------------------- *)

Lemma py_index_none {A} (l : list A) (i : Z) :
  py_index l i = None ->
  (i < - Z.of_nat (length l) \/ Z.of_nat (length l) <= i)%Z.
Proof.
  unfold py_index. destruct (Z.leb_spec 0 i).
  - intros E. apply nth_error_None in E. lia.
  - destruct (Z.leb_spec 0 (Z.of_nat (length l) + i)); [|lia].
    intros E. apply nth_error_None in E. lia.
Qed.

Lemma round4_one : (round4 1 == 1)%Q.
Proof. reflexivity. Qed.

Lemma round4_minus_one : (round4 (-1) == -1)%Q.
Proof. reflexivity. Qed.

Lemma round4_range x : (-1 <= x <= 1)%Q -> (-1 <= round4 x <= 1)%Q.
Proof.
  intros [Hlo Hhi]. split.
  - rewrite <- round4_minus_one. apply round4_le. assumption.
  - rewrite <- round4_one. apply round4_le. assumption.
Qed.

Section AppMore.
Context {U : Unicode}.
Variable eng : Engine.

Lemma retrieve_loop_none store query : forall indices,
  retrieve_loop eng store query indices = None ->
  Exists (fun i => (i < - Z.of_nat (length store)
                    \/ Z.of_nat (length store) <= i)%Z) indices.
Proof.
  induction indices as [|idx rest IH]; [discriminate|].
  cbn [retrieve_loop].
  destruct (py_index store idx) as [[doc_name snippet]|] eqn:Ei.
  - destruct (retrieve_loop eng store query rest) as [[rs ss]|]; [discriminate|].
    intros _. apply Exists_cons_tl. apply IH. reflexivity.
  - intros _. apply Exists_cons_hd. apply py_index_none. assumption.
Qed.

Lemma retrieve_loop_some store query : forall indices results similarities,
  retrieve_loop eng store query indices = Some (results, similarities) ->
  Forall (fun i => (- Z.of_nat (length store) <= i < Z.of_nat (length store))%Z)
         indices.
Proof.
  induction indices as [|idx rest IH]; intros results similarities H;
    [constructor|].
  cbn [retrieve_loop] in H.
  destruct (py_index store idx) as [[doc_name snippet]|] eqn:Ei; [|discriminate].
  destruct (retrieve_loop eng store query rest) as [[rs ss]|] eqn:Er; [|discriminate].
  constructor; [|exact (IH _ _ eq_refl)].
  unfold py_index in Ei. destruct (Z.leb_spec 0 idx) as [Hp|Hn].
  - assert (Hs : nth_error store (Z.to_nat idx) <> None) by congruence.
    apply nth_error_Some in Hs. lia.
  - destruct (Z.leb_spec 0 (Z.of_nat (length store) + idx)); [lia|discriminate].
Qed.

Lemma retrieve_grounding_range st query k results g :
  (forall a b, (-1 <= cosine_sim eng a b <= 1)%Q) ->
  retrieve eng st query k = inr (results, g) ->
  (-1 <= g <= 1)%Q
  /\ forall c, In c results -> (-1 <= similarity_score c <= 1)%Q.
Proof.
  intros Hrange H. unfold retrieve in H.
  destruct (index st) as [idx|]; [|discriminate].
  destruct (retrieve_loop eng (metadata_store st) query _)
    as [[rs sims]|] eqn:E; [|discriminate].
  injection H as -> <-.
  destruct (retrieve_loop_spec eng _ _ _ _ _ E) as (_ & _ & _ & Hcos & Hscore).
  assert (Hall : Forall (fun x => (-1 <= x <= 1)%Q) sims).
  { rewrite Hcos. apply Forall_forall. intros x Hx. apply in_map_iff in Hx.
    destruct Hx as (c' & <- & _). apply Hrange. }
  split.
  - destruct sims as [|x sims']; [split; discriminate|].
    apply mean_bounds; [discriminate|assumption].
  - intros c Hc.
    assert (Hin : In (similarity_score c) (map round4 sims)).
    { rewrite <- Hscore. apply in_map. assumption. }
    apply in_map_iff in Hin. destruct Hin as (x & <- & Hx).
    apply round4_range. rewrite Forall_forall in Hall. auto.
Qed.

Lemma build_index_aligned files st :
  index_aligned eng st -> index_aligned eng (build_index eng files st).
Proof.
  intros H. unfold build_index.
  destruct (flat_map _ files) as [|d docs] eqn:E; [exact H|].
  unfold index_aligned. cbn [index metadata_store].
  split; [discriminate|]. rewrite map_map. reflexivity.
Qed.

End AppMore.

(** X9.  Start-up keeps the index and [metadata_store] together: after any
    number of [build_index] runs from the initial state the index, when
    set, holds the embedding of each stored chunk in order; the health
    check answers 200 exactly when some chunk is stored, 503 otherwise,
    and reports the number of stored chunks. *)
Theorem build_index_keeps_alignment {U : Unicode} (eng : Engine) :
  index_aligned eng initial_state
  /\ forall (files : list (pystr * pystr)) (st : AppState),
       index_aligned eng st ->
       let st' := build_index eng files st in
       index_aligned eng st'
       /\ (fst (health_check st') = 200%Z <-> metadata_store st' <> [])
       /\ (fst (health_check st') = 503%Z <-> metadata_store st' = [])
       /\ documents_indexed (snd (health_check st')) = length (metadata_store st').
Proof.
  split; [reflexivity|].
  intros files st H st'.
  pose proof (build_index_aligned eng files st H) as H'. fold st' in H'.
  split; [exact H'|].
  unfold index_aligned in H'. unfold health_check.
  destruct (index st') as [emb|].
  - destruct H' as [Hne _]. cbn [fst snd documents_indexed].
    repeat split; try tauto; try discriminate.
  - cbn [fst snd documents_indexed]. rewrite H'.
    repeat split; try tauto; try discriminate.
Qed.

(** X10.  [retrieve] raises "Index not initialized" exactly when the index
    is unset, raises [IndexError] exactly when the search returned a label
    outside [-n .. n-1] for [n] stored chunks, and otherwise returns one
    result per label. *)
Theorem retrieve_outcomes {U : Unicode} (eng : Engine) :
  forall (st : AppState) (query : pystr) (k : Z),
    let n := Z.of_nat (length (metadata_store st)) in
    match retrieve eng st query k with
    | inl Index_not_initialized => index st = None
    | inl Index_error =>
        exists idx, index st = Some idx
          /\ Exists (fun i => (i < - n \/ n <= i)%Z)
                    (index_search eng idx (encode eng query) k)
    | inr (results, _) =>
        exists idx, index st = Some idx
          /\ Forall (fun i => (- n <= i < n)%Z)
                    (index_search eng idx (encode eng query) k)
          /\ length results = length (index_search eng idx (encode eng query) k)
    end.
Proof.
  intros st query k n. unfold retrieve.
  destruct (index st) as [idx|]; [|reflexivity].
  destruct (retrieve_loop eng (metadata_store st) query _)
    as [[results sims]|] eqn:E.
  - exists idx. split; [reflexivity|]. split.
    + exact (retrieve_loop_some eng _ _ _ _ _ E).
    + exact (proj1 (retrieve_loop_spec eng _ _ _ _ _ E)).
  - exists idx. split; [reflexivity|].
    exact (retrieve_loop_none eng _ _ _ E).
Qed.

(** X11.  For cosines within [-1, 1], every [similarity_score] that
    [retrieve] returns and the rounded [grounding_score] that [/ask] and
    [call_ask] report lie in [-1, 1]: rounding to four places does not
    leave the range. *)
Theorem reported_scores_in_range {U : Unicode} (eng : Engine) :
  (forall a b, (-1 <= cosine_sim eng a b <= 1)%Q) ->
  forall (st : AppState) (query : pystr) (k : Z),
    (forall results g, retrieve eng st query k = inr (results, g) ->
       forall c, In c results -> (-1 <= similarity_score c <= 1)%Q)
    /\ (forall r s, ask eng st (query, k) = inr r ->
          stats_grounding_score (reply_retrieval r) = Some s -> (-1 <= s <= 1)%Q)
    /\ (forall r s, call_ask eng st query k = inr r ->
          stats_grounding_score (ask_retrieval r) = Some s -> (-1 <= s <= 1)%Q).
Proof.
  intros Hrange st query k. split; [|split].
  - intros results g H. exact (proj2 (retrieve_grounding_range eng _ _ _ _ _ Hrange H)).
  - intros r s H Hs. unfold ask in H.
    destruct (_ || _); [discriminate|]. cbn [fst snd] in H.
    destruct (retrieve eng st query k) as [e|[chunks g]] eqn:E; [discriminate|].
    injection H as <-. cbn in Hs. injection Hs as <-.
    apply round4_range. exact (proj1 (retrieve_grounding_range eng _ _ _ _ _ Hrange E)).
  - intros r s H Hs. unfold call_ask in H.
    destruct (QueryRequest query k) as [[q' k']|] eqn:Eq; [|discriminate].
    unfold QueryRequest in Eq. destruct (_ && _); [|discriminate].
    injection Eq as <- <-.
    destruct (retrieve eng st query k) as [e|[chunks g]] eqn:E; [discriminate|].
    injection H as <-. cbn in Hs. injection Hs as <-.
    apply round4_range. exact (proj1 (retrieve_grounding_range eng _ _ _ _ _ Hrange E)).
Qed.

Lemma reported_scores_in_range_witness :
  (forall a b, (-1 <= cosine_sim demo_engine a b <= 1)%Q)
  /\ forall r s,
       call_ask demo_engine demo_state (lit "flood") 2 = inr r ->
       stats_grounding_score (ask_retrieval r) = Some s -> (-1 <= s <= 1)%Q.
Proof.
  split; [exact demo_cosine_range|].
  exact (proj2 (proj2 (reported_scores_in_range demo_engine demo_cosine_range
                         demo_state (lit "flood") 2))).
Defined.

(** X12.  [call_ask] answers a chat turn as [/ask] answers the same query:
    on an aligned state and for [k] in 1..6, one returns a reply exactly
    when the other does, with the same answer, citations (without
    [full_snippet]) and retrieval statistics. *)
Theorem call_ask_agrees_with_ask {U : Unicode} (eng : Engine) :
  forall (st : AppState) (query : pystr) (k : Z),
    index_aligned eng st ->
    (1 <= k <= 6)%Z ->
    (forall r, ask eng st (query, k) = inr r ->
       call_ask eng st query k
       = inr {| ask_answer := reply_answer r;
                ask_citations :=
                  map (fun c => (cit_doc c, cit_snippet c)) (reply_citations r);
                ask_retrieval := reply_retrieval r |})
    /\ (forall r', call_ask eng st query k = inr r' ->
          exists r, ask eng st (query, k) = inr r
                    /\ ask_answer r' = reply_answer r
                    /\ ask_retrieval r' = reply_retrieval r).
Proof.
  intros st query k Hal Hk.
  assert (Hq : QueryRequest query k = Some (query, k)).
  { unfold QueryRequest.
    replace ((1 <=? k)%Z && (k <=? 6)%Z) with true; [reflexivity|].
    symmetry. apply andb_true_iff. split; apply Z.leb_le; lia. }
  unfold ask, call_ask. rewrite Hq. cbn [fst snd]. split.
  - intros r H. destruct (_ || _); [discriminate|].
    destruct (retrieve eng st query k) as [e|[chunks g]]; [discriminate|].
    injection H as <-. cbn [reply_answer reply_citations reply_retrieval].
    rewrite map_map. reflexivity.
  - intros r' H.
    destruct (retrieve eng st query k) as [e|[chunks g]] eqn:E; [discriminate|].
    injection H as <-.
    unfold index_aligned in Hal. unfold retrieve in E.
    destruct (index st) as [emb|]; [|discriminate].
    destruct Hal as [Hne _].
    destruct (metadata_store st) as [|d ms]; [contradiction|].
    cbn [orb length Nat.eqb]. eexists. repeat split.
Qed.

Lemma demo_state_aligned : index_aligned demo_engine demo_state.
Proof. split; [discriminate|reflexivity]. Qed.

Lemma call_ask_agrees_with_ask_witness :
  index_aligned demo_engine demo_state
  /\ (1 <= 2 <= 6)%Z
  /\ exists r, ask demo_engine demo_state (lit "flood", 2%Z) = inr r
               /\ call_ask demo_engine demo_state (lit "flood") 2
                  = inr {| ask_answer := reply_answer r;
                           ask_citations :=
                             map (fun c => (cit_doc c, cit_snippet c))
                                 (reply_citations r);
                           ask_retrieval := reply_retrieval r |}.
Proof.
  assert (Hk : (1 <= 2 <= 6)%Z) by lia.
  split; [exact demo_state_aligned|]. split; [exact Hk|].
  destruct (ask demo_engine demo_state (lit "flood", 2%Z)) as [e|r] eqn:E;
    [vm_compute in E; discriminate E|].
  exists r. split; [reflexivity|].
  exact (proj1 (call_ask_agrees_with_ask demo_engine demo_state (lit "flood") 2
                  demo_state_aligned Hk) r E).
Defined.

(** X13.  While the index is unset the service answers 503 on [/ask] and
    [/healthz], but a chat turn with a non-empty message ends in 502, for
    any [k], after its user turn has been stored. *)
Theorem not_ready_behaviour {U : Unicode} (eng : Engine) (llm : Collaborator) :
  forall (st : AppState) (req : ChatRequest) (db : History),
    index st = None ->
    let user_msg := mask_aadhaar (strip (message req)) in
    (forall q, ask eng st q = inl (HTTP 503))
    /\ fst (health_check st) = 503%Z
    /\ (forall query k, call_ask eng st query k = inl (HTTP 502))
    /\ (user_msg <> [] ->
        chat eng llm st req db
        = (inl (HTTP 502), add_turn (session_id req) (lit "user") user_msg db)).
Proof.
  intros st req db Hnone user_msg.
  assert (Hask : forall query k, call_ask eng st query k = inl (HTTP 502)).
  { intros query k. unfold call_ask.
    destruct (QueryRequest query k) as [[q' k']|]; [|reflexivity].
    unfold retrieve. rewrite Hnone. reflexivity. }
  split; [|split; [|split; [exact Hask|]]].
  - intros q. unfold ask. rewrite Hnone. reflexivity.
  - unfold health_check. rewrite Hnone. reflexivity.
  - intros Hmsg. unfold chat. fold user_msg.
    destruct user_msg; [congruence|]. cbn [truthy negb].
    rewrite Hask. reflexivity.
Qed.

Lemma not_ready_behaviour_witness :
  index initial_state = None
  /\ chat demo_engine offline initial_state
       {| message := lit "hello"; session_id := lit "s"; req_k := 3 |} []
     = (inl (HTTP 502), add_turn (lit "s") (lit "user") (lit "hello") []).
Proof.
  split; [reflexivity|].
  refine (proj2 (proj2 (proj2 (not_ready_behaviour demo_engine offline initial_state
                   {| message := lit "hello"; session_id := lit "s"; req_k := 3 |}
                   [] eq_refl))) _).
  discriminate.
Defined.

Section SplitFacts.
Context {U : Unicode}.

Lemma Forall_firstn_keeps {A} (P : A -> Prop) (n : nat) (l : list A) :
  Forall P l -> Forall P (firstn n l).
Proof.
  intros H. revert n. induction H as [|x l Hx Hl IH]; intros [|n]; cbn [firstn];
    constructor; auto.
Qed.

Lemma split_go_words : forall s cur,
  Forall (fun c => is_space c = false) cur ->
  Forall is_split_word (split_go cur s).
Proof.
  induction s as [|c s IH]; intros cur Hcur; cbn [split_go].
  - destruct cur as [|x cur']; constructor; [|constructor].
    split.
    + intros E. apply (f_equal (@rev pychar)) in E.
      rewrite rev_involutive in E. discriminate.
    + apply Forall_rev. assumption.
  - destruct (is_space c) eqn:Ec.
    + destruct cur as [|x cur']; [apply IH; constructor|].
      constructor; [|apply IH; constructor].
      split.
      * intros E. apply (f_equal (@rev pychar)) in E.
        rewrite rev_involutive in E. discriminate.
      * apply Forall_rev. assumption.
    + apply IH. constructor; assumption.
Qed.

Lemma split_go_word : forall w cur rest,
  Forall (fun c => is_space c = false) w ->
  split_go cur (w ++ rest) = split_go (rev w ++ cur) rest.
Proof.
  induction w as [|c w IH]; intros cur rest H; [reflexivity|].
  inversion H as [|? ? Hc Hw]; subst.
  cbn [app split_go rev]. rewrite Hc, IH by assumption.
  rewrite <- app_assoc. reflexivity.
Qed.

Lemma split_join_words ws :
  is_space 32%N = true ->
  Forall is_split_word ws ->
  split (join (lit " ") ws) = ws.
Proof.
  intros Hsp H. unfold split.
  induction H as [|w ws [Hne Hw] Hws IH]; [reflexivity|].
  assert (Hrev : rev w <> []).
  { intros E. apply (f_equal (@rev pychar)) in E.
    rewrite rev_involutive in E. contradiction. }
  destruct ws as [|w2 ws'].
  - cbn [join]. rewrite <- (app_nil_r w) at 1.
    rewrite split_go_word, app_nil_r by assumption. cbn [split_go].
    destruct (rev w) eqn:E; [contradiction|].
    rewrite <- E, rev_involutive. reflexivity.
  - change (join (lit " ") (w :: w2 :: ws'))
      with (w ++ 32%N :: join (lit " ") (w2 :: ws')).
    rewrite split_go_word, app_nil_r by assumption. cbn [split_go].
    rewrite Hsp. destruct (rev w) eqn:E; [contradiction|].
    rewrite <- E, rev_involutive, IH. reflexivity.
Qed.

Lemma citation_preview_words snippet :
  is_space 32%N = true ->
  split (join (lit " ") (firstn 8 (split snippet))) = firstn 8 (split snippet).
Proof.
  intros Hsp. apply split_join_words; [assumption|].
  apply Forall_firstn_keeps. apply split_go_words. constructor.
Qed.

End SplitFacts.

(** X14.  With the space a whitespace character, the [citation_preview] of
    each result holds exactly the first eight words of its snippet (all of
    them when there are fewer), separated by single spaces: splitting it
    again gives those words. *)
Theorem citation_preview_first_words {U : Unicode} (eng : Engine) :
  is_space 32%N = true ->
  forall (st : AppState) (query : pystr) (k : Z) results g,
    retrieve eng st query k = inr (results, g) ->
    forall c, In c results ->
      split (citation_preview c) = firstn 8 (split (full_snippet c))
      /\ length (split (citation_preview c)) <= 8.
Proof.
  intros Hsp st query k results g H.
  assert (Hloop : forall store indices rs ss,
            retrieve_loop eng store query indices = Some (rs, ss) ->
            forall c, In c rs ->
              citation_preview c
              = join (lit " ") (firstn 8 (split (full_snippet c)))).
  { intros store. induction indices as [|idx rest IH]; intros rs ss E c Hc.
    - injection E as <- <-. contradiction.
    - cbn [retrieve_loop] in E.
      destruct (py_index store idx) as [[doc_name snippet]|]; [|discriminate].
      destruct (retrieve_loop eng store query rest) as [[rs' ss']|]; [|discriminate].
      injection E as <- <-. destruct Hc as [<-|Hc]; [reflexivity|].
      exact (IH _ _ eq_refl c Hc). }
  unfold retrieve in H.
  destruct (index st) as [idx|]; [|discriminate].
  destruct (retrieve_loop eng (metadata_store st) query _)
    as [[rs sims]|] eqn:E; [|discriminate].
  injection H as -> <-.
  intros c Hc. rewrite (Hloop _ _ _ _ E c Hc).
  rewrite citation_preview_words by assumption.
  split; [reflexivity|apply firstn_le_length].
Qed.

Lemma citation_preview_first_words_witness :
  is_space 32%N = true
  /\ forall results g,
       retrieve demo_engine demo_state (lit "flood") 2 = inr (results, g) ->
       forall c, In c results ->
         split (citation_preview c) = firstn 8 (split (full_snippet c)).
Proof.
  split; [reflexivity|].
  intros results g H c Hc.
  exact (proj1 (citation_preview_first_words demo_engine eq_refl demo_state
                  (lit "flood") 2 results g H c Hc)).
Defined.

(* --------------------------------------------------------------------- *)
(** ** agent.py *)
(* --------------------------------------------------------------------- *)

Section ChatFacts.
Context {U : Unicode}.
Variable eng : Engine.
Variable llm : Collaborator.

(** The three ways a chat turn ends. *)
Lemma chat_cases st req db :
  let session := session_id req in
  let user_msg := mask_aadhaar (strip (message req)) in
  let db1 := add_turn session (lit "user") user_msg db in
  (user_msg = [] /\ chat eng llm st req db = (inl (HTTP 400), db))
  \/ (user_msg <> []
      /\ call_ask eng st user_msg (req_k req) = inl (HTTP 502)
      /\ chat eng llm st req db = (inl (HTTP 502), db1))
  \/ (exists ask_resp resp,
        user_msg <> []
        /\ call_ask eng st user_msg (req_k req) = inr ask_resp
        /\ chat eng llm st req db
           = (inr resp, add_turn session (lit "assistant") (reply resp) db1)
        /\ resp_session_id resp = session
        /\ citations resp = ask_citations ask_resp
        /\ used_clarification resp
           = needs_clarification
               (check_needs_clarification_with_llm llm user_msg (ask_answer ask_resp)
                  (build_conversation_context db1 session 5))
        /\ confidence_score resp
           = Some (confidence
                     (check_needs_clarification_with_llm llm user_msg (ask_answer ask_resp)
                        (build_conversation_context db1 session 5)))
        /\ (used_clarification resp = true ->
            reply resp
            = clarification_question
                (check_needs_clarification_with_llm llm user_msg (ask_answer ask_resp)
                   (build_conversation_context db1 session 5))
            /\ retrieval resp
               = {| stats_k := req_k req; stats_grounding_score := None |})
        /\ (used_clarification resp = false ->
            reply resp
            = mask_aadhaar
                (generate_response_with_llm llm user_msg (ask_answer ask_resp)
                   (build_conversation_context db1 session 5))
            /\ retrieval resp = ask_retrieval ask_resp)).
Proof.
  intros session user_msg db1. unfold chat. fold session user_msg db1.
  destruct user_msg as [|c m] eqn:Eu; [left; split; reflexivity|].
  right. cbn [truthy negb].
  destruct (call_ask eng st (c :: m) (req_k req)) as [e|ask_resp] eqn:Ea.
  - left. assert (e = HTTP 502) as ->.
    { unfold call_ask in Ea.
      destruct (QueryRequest (c :: m) (req_k req)) as [[q' k']|];
        [|congruence].
      destruct (retrieve eng st q' k') as [e'|[chunks g]]; congruence. }
    repeat split; discriminate.
  - right. exists ask_resp.
    destruct (needs_clarification _) eqn:En; eexists;
      (split; [discriminate|]); (split; [reflexivity|]);
      (split; [refine (f_equal2 pair _ _); reflexivity|]); cbn;
      repeat split; try reflexivity; try congruence; try discriminate.
Qed.

Lemma call_ask_k st query k r :
  call_ask eng st query k = inr r ->
  (1 <= k <= 6)%Z /\ stats_k (ask_retrieval r) = k
  /\ exists s, stats_grounding_score (ask_retrieval r) = Some s.
Proof.
  unfold call_ask, QueryRequest.
  destruct (Z.leb_spec 1 k); [|discriminate].
  destruct (Z.leb_spec k 6); [|discriminate]. cbn [andb].
  destruct (retrieve eng st query k) as [e|[chunks g]]; [discriminate|].
  intros Hr. injection Hr as <-. cbn. repeat split; try lia. eexists; reflexivity.
Qed.

End ChatFacts.



(** X15.  A chat turn that returns a response has added exactly two rows
    to the history: the masked user message, and the reply. *)
Theorem chat_success_history {U : Unicode} (eng : Engine) (llm : Collaborator) :
  forall st req db resp db',
    chat eng llm st req db = (inr resp, db') ->
    let session := session_id req in
    let user_msg := mask_aadhaar (strip (message req)) in
    db' = db ++ [{| turn_session := session; turn_role := lit "user";
                    turn_text := user_msg |};
                 {| turn_session := session; turn_role := lit "assistant";
                    turn_text := reply resp |}].
Proof.
  intros st req db resp db' H session user_msg.
  destruct (chat_cases eng llm st req db)
    as [[_ E]|[(_ & _ & E)|(ar & resp0 & _ & _ & E & _)]];
    rewrite E in H; try discriminate.
  injection H as <- <-. fold session user_msg.
  unfold add_turn. rewrite <- app_assoc. reflexivity.
Qed.

Lemma chat_success_history_witness :
  exists resp db',
    chat demo_engine offline demo_state
      {| message := lit "hello"; session_id := lit "s"; req_k := 2 |} []
    = (inr resp, db')
    /\ db' = [] ++ [{| turn_session := lit "s"; turn_role := lit "user";
                       turn_text := mask_aadhaar (strip (lit "hello")) |};
                    {| turn_session := lit "s"; turn_role := lit "assistant";
                       turn_text := reply resp |}].
Proof.
  destruct (chat demo_engine offline demo_state
              {| message := lit "hello"; session_id := lit "s"; req_k := 2 |} [])
    as [[e|resp] db'] eqn:E; [vm_compute in E; discriminate E|].
  exists resp, db'. split; [reflexivity|].
  exact (chat_success_history demo_engine offline demo_state _ [] _ _ E).
Defined.

(** X16.  A chat turn that ends in a 400 has left the history untouched
    (the message was empty once stripped and masked); one that ends in a
    502 has stored the user turn and not rolled it back. *)
Theorem chat_error_history {U : Unicode} (eng : Engine) (llm : Collaborator) :
  forall st req db e db',
    chat eng llm st req db = (inl e, db') ->
    let user_msg := mask_aadhaar (strip (message req)) in
    (e = HTTP 400 -> user_msg = [] /\ db' = db)
    /\ (e = HTTP 502 ->
        user_msg <> []
        /\ db' = db ++ [{| turn_session := session_id req;
                           turn_role := lit "user";
                           turn_text := user_msg |}]).
Proof.
  intros st req db e db' H user_msg.
  destruct (chat_cases eng llm st req db)
    as [[Hu E]|[(Hu & _ & E)|(ar & resp0 & _ & _ & E & _)]];
    rewrite E in H; try discriminate; injection H as <- <-.
  - split; [intros _; split; [exact Hu|reflexivity]|discriminate].
  - split; [discriminate|intros _; split; [exact Hu|reflexivity]].
Qed.

Lemma chat_error_history_witness :
  chat demo_engine offline demo_state
    {| message := lit "hello"; session_id := lit "s"; req_k := 9 |} []
  = (inl (HTTP 502),
     [{| turn_session := lit "s"; turn_role := lit "user";
         turn_text := lit "hello" |}])
  /\ mask_aadhaar (strip (lit "hello")) <> [].
Proof.
  assert (H : chat demo_engine offline demo_state
                {| message := lit "hello"; session_id := lit "s"; req_k := 9 |} []
              = (inl (HTTP 502),
                 [{| turn_session := lit "s"; turn_role := lit "user";
                     turn_text := lit "hello" |}])) by reflexivity.
  split; [exact H|].
  exact (proj1 (proj2 (chat_error_history demo_engine offline demo_state _ [] _ _ H)
                  eq_refl)).
Defined.

Section ChatContext.
Context {U : Unicode}.
Variable eng : Engine.

(** After [add_turn] the session has a turn, so its context opens with the
    header. *)
Lemma context_after_add_turn db session role text n :
  exists rest,
    build_conversation_context (add_turn session role text db) session (S n)
    = lit "Previous conversation:" ++ rest.
Proof.
  rewrite build_conversation_context_newest_first;
    rewrite get_recent_add_same; [|discriminate].
  eexists. reflexivity.
Qed.

Lemma context_after_add_turn_not_start db session role text n :
  build_conversation_context (add_turn session role text db) session (S n)
  <> start_of_conversation.
Proof.
  destruct (context_after_add_turn db session role text n) as (rest & ->).
  discriminate.
Qed.

End ChatContext.

(** X17.  [chat] never sends the start-of-conversation sentence to the
    completion service: the user turn is stored before the context is
    built, so the context opens with the header, and two services that
    differ only in what they answer to the start-of-conversation sentence
    give the same chat turn. *)
Theorem chat_context_is_not_start {U : Unicode} (eng : Engine)
    (llm llm' : Collaborator) :
  (forall q h g, h <> start_of_conversation ->
     invoke_clarification llm q h g = invoke_clarification llm' q h g) ->
  (forall q h g, h <> start_of_conversation ->
     invoke_response llm q h g = invoke_response llm' q h g) ->
  (forall text, json_loads llm text = json_loads llm' text) ->
  forall st req db,
    chat eng llm st req db = chat eng llm' st req db
    /\ exists rest,
         build_conversation_context
           (add_turn (session_id req) (lit "user")
              (mask_aadhaar (strip (message req))) db)
           (session_id req) 5
         = lit "Previous conversation:" ++ rest.
Proof.
  intros Hc Hg Hj st req db. split; [|apply context_after_add_turn].
  unfold chat.
  destruct (truthy (mask_aadhaar (strip (message req)))); [|reflexivity].
  cbn [negb].
  destruct (call_ask eng st _ (req_k req)) as [e|ask_resp]; [reflexivity|].
  pose proof (context_after_add_turn_not_start db (session_id req) (lit "user")
                (mask_aadhaar (strip (message req))) 4) as Hctx.
  set (ctx := build_conversation_context _ _ 5) in *.
  assert (Ed : check_needs_clarification_with_llm llm
                 (mask_aadhaar (strip (message req))) (ask_answer ask_resp) ctx
               = check_needs_clarification_with_llm llm'
                   (mask_aadhaar (strip (message req))) (ask_answer ask_resp) ctx).
  { unfold check_needs_clarification_with_llm.
    rewrite (Hc _ ctx _ Hctx).
    destruct (invoke_clarification llm' _ ctx _); [|reflexivity].
    rewrite Hj. reflexivity. }
  assert (Er : generate_response_with_llm llm
                 (mask_aadhaar (strip (message req))) (ask_answer ask_resp) ctx
               = generate_response_with_llm llm'
                   (mask_aadhaar (strip (message req))) (ask_answer ask_resp) ctx).
  { unfold generate_response_with_llm. rewrite (Hg _ ctx _ Hctx). reflexivity. }
  rewrite Ed, Er. reflexivity.
Qed.

Lemma chat_context_is_not_start_witness :
  (forall q h g, h <> start_of_conversation ->
     invoke_clarification sentinel_service q h g = invoke_clarification offline q h g)
  /\ (forall q h g, h <> start_of_conversation ->
        invoke_response sentinel_service q h g = invoke_response offline q h g)
  /\ invoke_response sentinel_service (lit "q") start_of_conversation (lit "g")
     = Some (lit "Welcome.")
  /\ chat demo_engine sentinel_service demo_state
       {| message := lit "hello"; session_id := lit "s"; req_k := 2 |} []
     = chat demo_engine offline demo_state
         {| message := lit "hello"; session_id := lit "s"; req_k := 2 |} [].
Proof.
  assert (H1 : forall q h g, h <> start_of_conversation ->
            invoke_clarification sentinel_service q h g
            = invoke_clarification offline q h g).
  { intros q h g Hh.
    change (invoke_clarification sentinel_service q h g)
      with (if pystr_eqb h start_of_conversation
            then Some proceed_object else None).
    rewrite (pystr_eqb_neq _ _ Hh). reflexivity. }
  assert (H2 : forall q h g, h <> start_of_conversation ->
            invoke_response sentinel_service q h g
            = invoke_response offline q h g).
  { intros q h g Hh.
    change (invoke_response sentinel_service q h g)
      with (if pystr_eqb h start_of_conversation
            then Some (lit "Welcome.") else None).
    rewrite (pystr_eqb_neq _ _ Hh). reflexivity. }
  assert (H3 : forall text,
            json_loads sentinel_service text = json_loads offline text)
    by reflexivity.
  split; [exact H1|]. split; [exact H2|]. split; [reflexivity|].
  exact (proj1 (chat_context_is_not_start demo_engine sentinel_service offline
                  H1 H2 H3 demo_state
                  {| message := lit "hello"; session_id := lit "s"; req_k := 2 |} [])).
Defined.

(** X18.  A chat response echoes the session, reports the [k] of the
    request, which lies in 1..6, and carries a grounding score exactly when
    it is not a clarification. *)
Theorem chat_response_fields {U : Unicode} (eng : Engine) (llm : Collaborator) :
  forall st req db resp db',
    chat eng llm st req db = (inr resp, db') ->
    resp_session_id resp = session_id req
    /\ (1 <= req_k req <= 6)%Z
    /\ stats_k (retrieval resp) = req_k req
    /\ (used_clarification resp = true <->
        stats_grounding_score (retrieval resp) = None).
Proof.
  intros st req db resp db' H.
  destruct (chat_cases eng llm st req db)
    as [[_ E]|[(_ & _ & E)|(ar & resp0 & _ & Ha & E & Hs & _ & _ & _ & Ht & Hf)]];
    rewrite E in H; try discriminate.
  injection H as <- <-.
  destruct (call_ask_k eng _ _ _ _ Ha) as (Hk & Hsk & s & Hg).
  split; [exact Hs|]. split; [exact Hk|].
  destruct (used_clarification resp0).
  - destruct (Ht eq_refl) as [_ Hr]. rewrite Hr. cbn.
    repeat split; try discriminate; auto.
  - destruct (Hf eq_refl) as [_ Hr]. rewrite Hr, Hsk, Hg.
    repeat split; try discriminate.
Qed.

Lemma chat_response_fields_witness :
  exists resp db',
    chat demo_engine offline demo_state
      {| message := lit "hello"; session_id := lit "s"; req_k := 2 |} []
    = (inr resp, db')
    /\ resp_session_id resp = lit "s".
Proof.
  destruct (chat demo_engine offline demo_state
              {| message := lit "hello"; session_id := lit "s"; req_k := 2 |} [])
    as [[e|resp] db'] eqn:E; [vm_compute in E; discriminate E|].
  exists resp, db'. split; [reflexivity|].
  exact (proj1 (chat_response_fields demo_engine offline demo_state _ [] _ _ E)).
Defined.

(** X19.  On the generated-answer branch the reply that is stored and
    returned has been masked: it holds no 12-digit run bounded by word
    boundaries, and masking it again changes nothing. *)
Theorem chat_generated_reply_clean {U : Unicode} (eng : Engine) (llm : Collaborator) :
  forall st req db resp db',
    chat eng llm st req db = (inr resp, db') ->
    used_clarification resp = false ->
    mask_aadhaar (reply resp) = reply resp
    /\ forall before run after,
         reply resp = before ++ run ++ after -> ~ bounded_run before run after.
Proof.
  intros st req db resp db' H Hu.
  destruct (chat_cases eng llm st req db)
    as [[_ E]|[(_ & _ & E)|(ar & resp0 & _ & _ & E & _ & _ & _ & _ & _ & Hf)]];
    rewrite E in H; try discriminate.
  injection H as <- <-. destruct (Hf Hu) as [Hr _].
  assert (Hno : no_match None (reply resp0) = true)
    by (rewrite Hr; apply mask_aadhaar_no_match).
  split; [apply mask_aadhaar_fixed; exact Hno|].
  intros b r a Eb (Hlen & Hd & Hb & Ha).
  rewrite Eb in Hno. apply no_match_position in Hno.
  assert (Hm : match_at (last_error b) (r ++ a) = true)
    by (apply match_at_bounded; assumption).
  destruct (last_error b); congruence.
Qed.

Lemma chat_generated_reply_clean_witness :
  exists resp db',
    chat demo_engine offline demo_policy_state
      {| message := lit "water"; session_id := lit "s"; req_k := 1 |} []
    = (inr resp, db')
    /\ used_clarification resp = false
    /\ mask_aadhaar (reply resp) = reply resp.
Proof.
  destruct (chat demo_engine offline demo_policy_state
              {| message := lit "water"; session_id := lit "s"; req_k := 1 |} [])
    as [[e|resp] db'] eqn:E; [vm_compute in E; discriminate E|].
  assert (Hu : used_clarification resp = false).
  { vm_compute in E. injection E as <- _. reflexivity. }
  exists resp, db'. split; [reflexivity|]. split; [exact Hu|].
  exact (proj1 (chat_generated_reply_clean demo_engine offline demo_policy_state
                  _ [] _ _ E Hu)).
Defined.

(** X20.  When the call for the answer fails, the reply of the generator
    is at most 500 characters long, and for a non-empty grounding it is a
    prefix of the grounding. *)
Theorem generate_response_fallback_bounded {U : Unicode} (llm : Collaborator) :
  forall query grounding history : pystr,
    invoke_response llm query history grounding = None ->
    let r := generate_response_with_llm llm query grounding history in
    length r <= 500
    /\ (grounding <> [] -> exists rest, grounding = r ++ rest).
Proof.
  intros query grounding history Hfail r.
  unfold r, generate_response_with_llm. rewrite Hfail.
  destruct grounding as [|c g]; cbn [truthy].
  - split; [vm_compute; lia|]. intros H. contradiction.
  - split; [apply firstn_le_length|].
    intros _. exists (skipn 500 (c :: g)). symmetry. apply firstn_skipn.
Qed.

Lemma generate_response_fallback_bounded_witness :
  invoke_response offline (lit "q") [] (lit "Policy 101") = None
  /\ length (generate_response_with_llm offline (lit "q") (lit "Policy 101") [])
     <= 500.
Proof.
  split; [reflexivity|].
  exact (proj1 (generate_response_fallback_bounded offline
                  (lit "q") (lit "Policy 101") [] eq_refl)).
Defined.

(** X21.  With the completion service unreachable, a chat turn whose
    retrieval succeeded asks the fixed clarification question with
    confidence 0.3 when the retrieved answer is shorter than 50 characters,
    and otherwise replies with the masked first 500 characters of the
    answer with confidence 0.7. *)
Theorem chat_without_collaborator {U : Unicode} (eng : Engine) (llm : Collaborator) :
  (forall q h g, invoke_clarification llm q h g = None) ->
  (forall q h g, invoke_response llm q h g = None) ->
  forall st req db ask_resp,
    let user_msg := mask_aadhaar (strip (message req)) in
    user_msg <> [] ->
    call_ask eng st user_msg (req_k req) = inr ask_resp ->
    exists resp,
      fst (chat eng llm st req db) = inr resp
      /\ (length (ask_answer ask_resp) < 50 ->
          used_clarification resp = true
          /\ reply resp = fallback_question
          /\ confidence_score resp = Some (3 # 10))
      /\ (50 <= length (ask_answer ask_resp) ->
          used_clarification resp = false
          /\ reply resp = mask_aadhaar (firstn 500 (ask_answer ask_resp))
          /\ confidence_score resp = Some (7 # 10)).
Proof.
  intros Hc Hg st req db ask_resp user_msg Hmsg Hask.
  destruct (chat_cases eng llm st req db)
    as [[Hu _]|[(_ & Ha & _)|(ar & resp & _ & Ha & E & _ & _ & Hn & Hconf & Ht & Hf)]].
  - contradiction.
  - fold user_msg in Ha. congruence.
  - fold user_msg in Ha. rewrite Hask in Ha. injection Ha as <-.
    exists resp. rewrite E. split; [reflexivity|].
    assert (Ed : forall h,
               check_needs_clarification_with_llm llm
                 (mask_aadhaar (strip (message req))) (ask_answer ask_resp) h
               = clarification_fallback (ask_answer ask_resp)).
    { intros h. unfold check_needs_clarification_with_llm. rewrite Hc. reflexivity. }
    rewrite Ed in Hn, Hconf, Ht. unfold clarification_fallback in Hn, Hconf, Ht.
    split; intros Hlen.
    + apply Nat.ltb_lt in Hlen. rewrite Hlen, orb_true_r in Hn, Hconf, Ht.
      cbn in Hn, Hconf, Ht.
      split; [exact Hn|]. split; [exact (proj1 (Ht Hn))|exact Hconf].
    + assert (Hl : (length (ask_answer ask_resp) <? 50) = false)
        by (apply Nat.ltb_ge; assumption).
      assert (Htr : truthy (ask_answer ask_resp) = true)
        by (destruct (ask_answer ask_resp); [simpl in Hlen; lia|reflexivity]).
      rewrite Hl, Htr in Hn, Hconf. cbn in Hn, Hconf.
      split; [exact Hn|]. split; [|exact Hconf].
      rewrite (proj1 (Hf Hn)). unfold generate_response_with_llm.
      rewrite Hg, Htr. reflexivity.
Qed.

Lemma chat_without_collaborator_witness :
  (forall q h g, invoke_clarification offline q h g = None)
  /\ (forall q h g, invoke_response offline q h g = None)
  /\ mask_aadhaar (strip (lit "hello")) <> []
  /\ exists ask_resp resp,
       call_ask demo_engine demo_state (mask_aadhaar (strip (lit "hello"))) 2
       = inr ask_resp
       /\ fst (chat demo_engine offline demo_state
                 {| message := lit "hello"; session_id := lit "s"; req_k := 2 |} [])
          = inr resp.
Proof.
  assert (H1 : forall q h g, invoke_clarification offline q h g = None)
    by reflexivity.
  assert (H2 : forall q h g, invoke_response offline q h g = None)
    by reflexivity.
  assert (H3 : mask_aadhaar (strip (lit "hello")) <> []) by discriminate.
  split; [exact H1|]. split; [exact H2|]. split; [exact H3|].
  destruct (call_ask demo_engine demo_state (mask_aadhaar (strip (lit "hello"))) 2)
    as [e|ask_resp] eqn:Ea; [vm_compute in Ea; discriminate Ea|].
  exists ask_resp.
  destruct (chat_without_collaborator demo_engine offline H1 H2 demo_state
              {| message := lit "hello"; session_id := lit "s"; req_k := 2 |} []
              ask_resp H3 Ea) as (resp & E & _).
  exists resp. split; [reflexivity|exact E].
Defined.

Section ExtractionCases.
Context {U : Unicode}.

Lemma find_none_absent c s : find c s = (-1)%Z -> ~ In c s.
Proof.
  induction s as [|x s IH]; [intros _ []|].
  cbn [find]. unfold pychar_eqb. destruct (N.eqb_spec x c) as [->|Hne];
    [discriminate|].
  destruct (Z.eqb_spec (find c s) (-1)) as [E|NE].
  - intros _ [Hx|Hin]; [contradiction|]. exact (IH E Hin).
  - intros H. exfalso.
    assert (0 <= find c s)%Z; [|lia].
    clear -NE. induction s as [|y s IH]; [contradiction|].
    cbn [find] in *. destruct (pychar_eqb y c); [lia|].
    destruct (Z.eqb_spec (find c s) (-1)); [contradiction|].
    specialize (IH n). lia.
Qed.

Lemma rfind_lower c s : (-1 <= rfind c s)%Z.
Proof.
  induction s as [|x s IH]; cbn [rfind]; [lia|].
  destruct (Z.eqb_spec (rfind c s) (-1)); [destruct (pychar_eqb x c)|]; lia.
Qed.

Lemma rfind_none_absent c s : rfind c s = (-1)%Z -> ~ In c s.
Proof.
  induction s as [|x s IH]; [intros _ []|].
  cbn [rfind]. destruct (Z.eqb_spec (rfind c s) (-1)) as [E|NE].
  - unfold pychar_eqb. destruct (N.eqb_spec x c) as [->|Hne]; [discriminate|].
    intros _ [Hx|Hin]; [contradiction|]. exact (IH E Hin).
  - pose proof (rfind_lower c s). lia.
Qed.

Lemma find_inv c s :
  find c s <> (-1)%Z ->
  exists a r, s = a ++ c :: r /\ ~ In c a /\ find c s = Z.of_nat (length a).
Proof.
  induction s as [|x s IH]; [contradiction|].
  cbn [find]. unfold pychar_eqb. destruct (N.eqb_spec x c) as [->|Hne].
  - intros _. exists [], s. repeat split. intros [].
  - destruct (Z.eqb_spec (find c s) (-1)) as [E|NE]; [contradiction|].
    intros _. destruct (IH NE) as (a & r & -> & Ha & Ef).
    exists (x :: a), r. repeat split.
    + intros [Hx|Hin]; [contradiction|]. exact (Ha Hin).
    + rewrite Ef. cbn [length]. lia.
Qed.

Lemma rfind_inv c s :
  rfind c s <> (-1)%Z ->
  exists a r, s = a ++ c :: r /\ ~ In c r /\ rfind c s = Z.of_nat (length a).
Proof.
  induction s as [|x s IH]; [contradiction|].
  cbn [rfind]. destruct (Z.eqb_spec (rfind c s) (-1)) as [E|NE].
  - unfold pychar_eqb. destruct (N.eqb_spec x c) as [->|Hne]; [|contradiction].
    intros _. exists [], s. repeat split. apply rfind_none_absent. exact E.
  - intros _. destruct (IH NE) as (a & r & -> & Hr & Ef).
    exists (x :: a), r. repeat split; [exact Hr|].
    rewrite Ef. cbn [length]. lia.
Qed.

Lemma find_upper c a r : (0 <= find c (a ++ c :: r) <= Z.of_nat (length a))%Z.
Proof.
  induction a as [|x a IH]; cbn [app find length].
  - unfold pychar_eqb. rewrite N.eqb_refl. lia.
  - destruct (pychar_eqb x c); [lia|].
    destruct (Z.eqb_spec (find c (a ++ c :: r)) (-1)); lia.
Qed.

Lemma rfind_at_least c a r : (Z.of_nat (length a) <= rfind c (a ++ c :: r))%Z.
Proof.
  induction a as [|x a IH]; cbn [app rfind length].
  - pose proof (rfind_lower c r).
    destruct (Z.eqb_spec (rfind c r) (-1)); [|lia].
    unfold pychar_eqb. rewrite N.eqb_refl. lia.
  - destruct (Z.eqb_spec (rfind c (a ++ c :: r)) (-1)); lia.
Qed.

End ExtractionCases.

(** X22.  The text handed to the JSON decoder is cut exactly when the
    stripped reply has a [{] with a [}] somewhere after it, and then runs
    from the first [{] to the last [}]; in every other case the whole
    stripped reply is handed over. *)
Theorem extract_json_text_cases {U : Unicode} :
  forall result : pystr,
    let t := strip result in
    (exists leading middle trailing,
        t = leading ++ [123%N] ++ middle ++ [125%N] ++ trailing
        /\ ~ In 123%N leading /\ ~ In 125%N trailing
        /\ extract_json_text result = [123%N] ++ middle ++ [125%N])
    \/ (extract_json_text result = t
        /\ forall a m b, t <> a ++ [123%N] ++ m ++ [125%N] ++ b).
Proof.
  intros result t. unfold extract_json_text. fold t.
  destruct (negb (find 123%N t =? -1)%Z && (find 123%N t <? rfind 125%N t + 1)%Z)
    eqn:Ec.
  - left. apply andb_true_iff in Ec as [Hi Hj].
    apply negb_true_iff, Z.eqb_neq in Hi. apply Z.ltb_lt in Hj.
    destruct (find_inv 123%N t Hi) as (a & r & Et & Ha & Ei).
    assert (Hjn : rfind 125%N t <> (-1)%Z) by lia.
    destruct (rfind_inv 125%N t Hjn) as (a' & b & Et' & Hb & Ej).
    assert (Hmid : exists m, r = m ++ 125%N :: b /\ a' = a ++ 123%N :: m).
    { rewrite Et in Et'. apply app_eq_app in Et'.
      destruct Et' as (l & [[E1 E2]|[E1 E2]]).
      - assert (Hl : length a = length a' + length l)
          by (rewrite E1, length_app; reflexivity).
        destruct l as [|x l]; [|simpl in Hl; lia].
        cbn [app] in E2. discriminate.
      - destruct l as [|x l]; [cbn [app] in E2; discriminate|].
        cbn [app] in E2. injection E2 as <- ->. exists l.
        split; [reflexivity|assumption]. }
    destruct Hmid as (m & -> & ->).
    exists a, m, b. split; [exact Et|]. split; [exact Ha|]. split; [exact Hb|].
    rewrite Ei, Ej, Et.
    assert (El : a ++ 123%N :: m ++ 125%N :: b
                 = a ++ (123%N :: m ++ [125%N]) ++ b)
      by (cbn [app]; rewrite <- app_assoc; reflexivity).
    refine (eq_trans (f_equal (fun u => slice u _ _) El) _).
    apply slice_between; [reflexivity|].
    cbn [length]. rewrite !length_app. cbn [length].
    unfold pystr, pychar in *. lia.
  - right. split; [reflexivity|].
    intros a m b Et.
    assert (Hf : (0 <= find 123%N t <= Z.of_nat (length a))%Z)
      by (rewrite Et; apply find_upper).
    assert (Et2 : t = (a ++ 123%N :: m) ++ 125%N :: b)
      by (rewrite Et, <- app_assoc; reflexivity).
    assert (Hr : (Z.of_nat (length (a ++ 123%N :: m)) <= rfind 125%N t)%Z)
      by (rewrite Et2; apply rfind_at_least).
    rewrite length_app in Hr. cbn [length] in Hr.
    apply andb_false_iff in Ec as [Ec|Ec].
    + apply negb_false_iff, Z.eqb_eq in Ec. lia.
    + apply Z.ltb_ge in Ec. unfold pystr, pychar in *. lia.
Qed.

(* --------------------------------------------------------------------- *)
(** ** eval.py *)
(* --------------------------------------------------------------------- *)

Ltac third_lra :=
  unfold Qdiv in *; change (/ 3)%Q with (1 # 3)%Q in *; lra.

Section EvalFacts.
Context {U : Unicode}.
Variable env : EvalEnv.

Lemma filter_length_bound {A} (f : A -> bool) (l : list A) :
  length (filter f l) <= length l.
Proof.
  induction l as [|x l IH]; [apply Nat.le_refl|].
  cbn [filter]. destruct (f x); cbn [length]; lia.
Qed.

Lemma correct_citations_bound query :
  correct_citations env query <= length (post_ask env (eval_q query) 3).
Proof. unfold correct_citations. apply filter_length_bound. Qed.

Lemma inject_nat_succ n :
  (inject_Z (Z.of_nat (S n)) == inject_Z (Z.of_nat n) + 1)%Q.
Proof. rewrite Nat2Z.inj_succ. unfold Z.succ. rewrite inject_Z_plus. reflexivity. Qed.

(** The loop counts at most one hit per query, and each hit adds between a
    third and one to the precision sum when no reply has more than three
    citations. *)
Lemma evaluate_loop_invariant : forall queries acc,
  let acc' := fold_left (evaluate_step env) queries acc in
  fst acc <= fst acc' <= fst acc + length queries
  /\ ((forall q, In q queries -> length (post_ask env (eval_q q) 3) <= 3) ->
      ((inject_Z (Z.of_nat (fst acc')) - inject_Z (Z.of_nat (fst acc))) / 3
       <= snd acc' - snd acc
       <= inject_Z (Z.of_nat (fst acc')) - inject_Z (Z.of_nat (fst acc)))%Q).
Proof.
  induction queries as [|q queries IH]; intros acc acc'.
  - subst acc'. cbn [fold_left length]. split; [lia|]. intros _. third_lra.
  - subst acc'. cbn [fold_left length].
    specialize (IH (evaluate_step env acc q)). cbv zeta in IH.
    destruct IH as [Hcount Hsum].
    set (acc1 := evaluate_step env acc q) in *.
    assert (Hstep :
              fst acc <= fst acc1 <= S (fst acc)
              /\ (length (post_ask env (eval_q q) 3) <= 3 ->
                  ((inject_Z (Z.of_nat (fst acc1)) - inject_Z (Z.of_nat (fst acc))) / 3
                   <= snd acc1 - snd acc
                   <= inject_Z (Z.of_nat (fst acc1)) - inject_Z (Z.of_nat (fst acc)))%Q)).
    { unfold acc1, evaluate_step.
      pose proof (correct_citations_bound q) as Hb.
      destruct (Nat.ltb_spec 0 (correct_citations env q)) as [Hpos|Hz];
        cbn [fst snd].
      - split; [lia|]. intros H3. rewrite inject_nat_succ.
        assert (H1 : (1 <= inject_Z (Z.of_nat (correct_citations env q)))%Q)
          by (rewrite <- (Zle_Qle 1); lia).
        assert (H2 : (inject_Z (Z.of_nat (correct_citations env q)) <= 3)%Q)
          by (rewrite <- (Zle_Qle _ 3); lia).
        third_lra.
      - split; [lia|]. intros _. third_lra. }
    destruct Hstep as [Hc1 Hs1]. split; [lia|].
    intros Hall.
    specialize (Hs1 (Hall q (or_introl eq_refl))).
    specialize (Hsum (fun q' Hq' => Hall q' (or_intror Hq'))).
    third_lra.
Qed.

End EvalFacts.

(** X23.  [evaluate] fails with a division by zero on an empty evaluation
    file.  Otherwise the hit rate lies in [0, 1], and when no reply carries
    more than three citations the precision lies between 0 and the hit
    rate. *)
Theorem evaluate_summary {U : Unicode} (env : EvalEnv) :
  forall queries : list EvalQuery,
    (queries = [] -> evaluate env queries = None)
    /\ (queries <> [] ->
        exists hit_rate precision,
          evaluate env queries = Some (hit_rate, precision)
          /\ (0 <= hit_rate <= 1)%Q
          /\ ((forall q, In q queries -> length (post_ask env (eval_q q) 3) <= 3) ->
              (0 <= precision <= hit_rate)%Q)).
Proof.
  intros queries. split; [intros ->; reflexivity|].
  intros Hne. unfold evaluate.
  pose proof (evaluate_loop_invariant env queries (0, 0%Q)) as Hinv.
  cbv zeta in Hinv.
  destruct (fold_left (evaluate_step env) queries (0, 0%Q)) as [hits ps].
  cbn [fst snd] in Hinv. destruct Hinv as [Hcount Hsum].
  destruct (Nat.eqb_spec (length queries) 0) as [E|_];
    [destruct queries; [contradiction|discriminate]|].
  set (T := inject_Z (Z.of_nat (length queries))).
  set (H := inject_Z (Z.of_nat hits)) in *.
  assert (HT : (0 < T)%Q).
  { unfold T. rewrite <- (Zlt_Qlt 0).
    destruct queries; [contradiction|cbn [length]; lia]. }
  assert (H0 : (0 <= H)%Q) by (unfold H; rewrite <- (Zle_Qle 0); lia).
  assert (HleT : (H <= T)%Q) by (unfold H, T; rewrite <- Zle_Qle; lia).
  eexists _, _. split; [reflexivity|]. split.
  - split.
    + apply Qle_shift_div_l; [exact HT|]. lra.
    + apply Qle_shift_div_r; [exact HT|]. lra.
  - intros Hall. specialize (Hsum Hall).
    change (inject_Z (Z.of_nat 0)) with 0%Q in Hsum.
    assert (Hne0 : ~ (T == 0)%Q) by lra.
    split.
    + apply Qle_shift_div_l; [exact HT|]. third_lra.
    + apply Qle_shift_div_r; [exact HT|].
      assert (E : (H / T * T == H)%Q) by (field; exact Hne0).
      rewrite E. lra.
Qed.

(* --------------------------------------------------------------------- *)
(** ** Across functions *)
(* --------------------------------------------------------------------- *)

Lemma occurs_in_join (sep x : pystr) (parts : list pystr) :
  In x parts -> occurs_in x (join sep parts).
Proof.
  induction parts as [|p parts IH]; [intros []|].
  intros [->|Hin].
  - destruct parts as [|p2 parts'].
    + exists [], []. cbn [join app]. symmetry. apply app_nil_r.
    + exists [], (sep ++ join sep (p2 :: parts')). reflexivity.
  - destruct parts as [|p2 parts']; [destruct Hin|].
    destruct (IH Hin) as (b & a & E).
    exists (p ++ sep ++ b), a.
    change (join sep (p :: p2 :: parts')) with (p ++ sep ++ join sep (p2 :: parts')).
    rewrite E, <- !app_assoc. reflexivity.
Qed.

(** X24.  The answer of [/ask] contains the full snippet of every citation
    it returns. *)
Theorem ask_answer_contains_citations {U : Unicode} (eng : Engine) :
  forall (st : AppState) (req : pystr * Z) (r : AskReply),
    ask eng st req = inr r ->
    forall c, In c (reply_citations r) ->
      occurs_in (cit_full_snippet c) (reply_answer r).
Proof.
  intros st req r H c Hc. unfold ask in H.
  destruct (_ || _); [discriminate|].
  destruct (retrieve eng st (fst req) (snd req)) as [e|[chunks g]]; [discriminate|].
  injection H as <-. cbn [reply_citations reply_answer] in *.
  apply in_map_iff in Hc. destruct Hc as (ch & <- & Hch).
  cbn [cit_full_snippet]. unfold compose_answer.
  apply occurs_in_join. apply in_map. exact Hch.
Qed.

Lemma ask_answer_contains_citations_witness :
  exists r,
    ask demo_engine demo_state (lit "flood", 2%Z) = inr r
    /\ forall c, In c (reply_citations r) ->
         occurs_in (cit_full_snippet c) (reply_answer r).
Proof.
  destruct (ask demo_engine demo_state (lit "flood", 2%Z)) as [e|r] eqn:E;
    [vm_compute in E; discriminate E|].
  exists r. split; [reflexivity|].
  exact (ask_answer_contains_citations demo_engine demo_state (lit "flood", 2%Z) r E).
Defined.

